(** * The queue service of rlockerservices, and its dispatch properties

    A shallow embedding of [queue_service/queue_service.py]: the class
    [QueueService] with its methods [put_queues_on_pending], [run] and
    [queue_beat_check].  The service talks to a remote lock registry
    through [ResourceLockerConnection]; that registry, the heartbeat
    store and the thread table of the interpreter are the environment
    of the program.  They are kept abstract (a world type [W] and one
    transition function per call), and every call the program makes is
    recorded in a log, so that the statements below speak about the
    calls the code issues, in the order in which it issues them. *)

From Stdlib Require Import List String Ascii ZArith Lia Bool.
From Stdlib Require Import Decimal DecimalString.
From Stdlib Require Import DecimalPos DecimalZ Sorted Permutation.
Import ListNotations.
Open Scope string_scope.

Set Implicit Arguments.
Set Warnings "-register-all".

(** ** Python values *)

(** The values that travel between the service and the registry are
    decoded JSON documents and YAML settings: [None], booleans,
    integers, strings, lists and string-keyed dictionaries.  A
    dictionary keeps its insertion order; the keys of a decoded object
    are pairwise distinct.  Floating-point numbers do not occur in any
    of the paths modelled here and are left out. *)
Inductive pyval : Type :=
| PyNone
| PyBool (b : bool)
| PyInt (z : Z)
| PyStr (s : string)
| PyList (l : list pyval)
| PyDict (d : list (string * pyval)).

Definition pydict : Type := list (string * pyval).

(** Truth value of an object in a condition ([if x:]). *)
Definition truthy (v : pyval) : bool :=
  match v with
  | PyNone => false
  | PyBool b => b
  | PyInt z => negb (Z.eqb z 0)
  | PyStr s => negb (String.eqb s "")
  | PyList l => match l with [] => false | _ :: _ => true end
  | PyDict d => match d with [] => false | _ :: _ => true end
  end.

(** [d.get(k)]: the value stored under [k], [None] when there is none. *)
Fixpoint dict_get (d : pydict) (k : string) : pyval :=
  match d with
  | [] => PyNone
  | (k', v) :: rest => if String.eqb k' k then v else dict_get rest k
  end.

(** [v == s] for a string literal [s]: only an equal string compares
    equal to a string. *)
Definition eq_str (v : pyval) (s : string) : bool :=
  match v with
  | PyStr s' => String.eqb s' s
  | _ => false
  end.

(** [s[:n]] on a string: the first [n] characters, the whole string
    when it has no more than [n].  One [ascii] stands for one character
    of the Python string. *)
Fixpoint str_slice_to (n : nat) (s : string) {struct s} : string :=
  match s, n with
  | String c rest, S n' => String c (str_slice_to n' rest)
  | _, _ => EmptyString
  end.

(** The line feed of the string literals of the source. *)
Definition nl : string := String "010"%char EmptyString.

(** [sub in s] as a proposition. *)
Definition Contains (sub s : string) : Prop :=
  exists before after, s = before ++ sub ++ after.

(** ** Exceptions and results *)

Inductive exn : Type :=
| SystemExit (code : option Z)
| Exception (msg : string)
| AttributeError
| TypeError
| ValueError
| IndexError
| JSONDecodeError
| RequestError (what : string)
| OverflowError.

Inductive result (A : Type) : Type :=
| Ok (a : A)
| Raise (e : exn).
Arguments Ok {A} a.
Arguments Raise {A} e.

(** The status with which the interpreter ends when the exception
    reaches the top level: [SystemExit] carries the status, and a
    missing code ([sys.exit()] without argument) means success; any
    other uncaught exception ends the process with status 1. *)
Definition exit_status (e : exn) : Z :=
  match e with
  | SystemExit None => 0
  | SystemExit (Some n) => n
  | _ => 1
  end.

(** [v.get(k)] on an arbitrary object: only a dictionary has [get]. *)
Definition py_get (v : pyval) (k : string) : result pyval :=
  match v with
  | PyDict d => Ok (dict_get d k)
  | _ => Raise AttributeError
  end.

(** *** The constructor [dict(v)]

    [dict] copies a dictionary and otherwise consumes an iterable of
    key/value pairs, every element being itself an iterable of length
    two with a hashable first component.  The outcome is kept as the
    sequence of pairs in insertion order, later pairs overriding
    earlier ones. *)
Definition hashable (v : pyval) : bool :=
  match v with
  | PyList _ | PyDict _ => false
  | _ => true
  end.

Definition char_str (c : ascii) : pyval := PyStr (String c EmptyString).

Definition pair_of_item (item : pyval) : result (pyval * pyval) :=
  match item with
  | PyList [k; v] => if hashable k then Ok (k, v) else Raise TypeError
  | PyList _ => Raise ValueError
  | PyStr (String a (String b EmptyString)) => Ok (char_str a, char_str b)
  | PyStr _ => Raise ValueError
  | PyDict [(k1, _); (k2, _)] => Ok (PyStr k1, PyStr k2)
  | PyDict _ => Raise ValueError
  | _ => Raise TypeError
  end.

Fixpoint pairs_of_items (items : list pyval) : result (list (pyval * pyval)) :=
  match items with
  | [] => Ok []
  | item :: rest =>
      match pair_of_item item with
      | Raise e => Raise e
      | Ok p =>
          match pairs_of_items rest with
          | Raise e => Raise e
          | Ok ps => Ok (p :: ps)
          end
      end
  end.

Definition str_key (kv : string * pyval) : pyval * pyval :=
  (PyStr (fst kv), snd kv).

Definition py_dict (v : pyval) : result (list (pyval * pyval)) :=
  match v with
  | PyDict d => Ok (map str_key d)
  | PyList items => pairs_of_items items
  | PyStr EmptyString => Ok []
  | PyStr (String _ _) => Raise ValueError
  | _ => Raise TypeError
  end.

(** [d.get(k)] for a string [k] on the outcome of [dict(...)]: the
    value of the last pair stored under a key equal to [k], [None]
    when there is no such pair. *)
Fixpoint pairs_find (ps : list (pyval * pyval)) (k : string) : option pyval :=
  match ps with
  | [] => None
  | (k', v) :: rest =>
      match pairs_find rest k with
      | Some later => Some later
      | None => if eq_str k' k then Some v else None
      end
  end.

Definition pairs_get (ps : list (pyval * pyval)) (k : string) : pyval :=
  match pairs_find ps k with
  | Some v => v
  | None => PyNone
  end.

(** ** Constants, entries and groups *)

(** Modelled from the spec: the module [queue_service/constants.py] is
    not among the sources; the status names are the ones the spec lists
    for a queue entry ([INITIALIZING], [PENDING], [FINISHED],
    [FAILED]). *)
Module const.
Definition STATUS_INITIALIZING : string := "INITIALIZING".
Definition STATUS_PENDING : string := "PENDING".
Definition STATUS_FINISHED : string := "FINISHED".
Definition STATUS_FAILED : string := "FAILED".
End const.

(** Modelled from the spec: the class [Rqueue] of
    [queue_service/rqueue.py] is not among the sources.  An instance
    carries the attributes the service passes to its constructor: [id],
    [priority], and [data], a mapping that holds at least [signoff] and
    [link]. *)
Record Rqueue : Type := {
  id : pyval;
  priority : pyval;
  data : pydict
}.

(** An element of [Rqueue.grouped_queues]: a dictionary with the keys
    [group_type], [group_name] and [queues]. *)
Record Group : Type := {
  group_type : pyval;
  group_name : pyval;
  queues : list Rqueue
}.

(** What [requests] hands back for a call of the registry: the body as
    text, and what [json()] makes of that text, a decoded document or
    an exception when the body is not JSON.  The decoder belongs to
    [requests] and is not modelled, so a response carries both. *)
Record Response : Type := {
  text : string;
  json : result pyval
}.

(** ** The calls the service issues *)

Inductive event : Type :=
| GetQueues (status : string)
| ChangeQueue (queue_id : pyval) (kwargs : pydict)
| AbortQueue (queue_id : pyval) (abort_msg : string)
| GetLockableResources (kwargs : pydict)
| LockResource (resource : pydict) (signoff link : pyval)
| QueueHasBeat (queue_id : pyval) (in_last_x_seconds : pyval)
| Print (line : string)
| PrintObj (obj : pyval)
| PPrint (groups : list Group)
| ThreadStart (name : string) (next_queue : Rqueue) (next_resource : pydict).

(** The calls that change the status of a queue entry. *)
Definition is_status_change (ev : event) : bool :=
  match ev with
  | ChangeQueue _ _ | AbortQueue _ _ => true
  | _ => false
  end.

Definition is_lock_request (ev : event) : bool :=
  match ev with
  | LockResource _ _ _ => true
  | _ => false
  end.

Definition is_resource_query (ev : event) : bool :=
  match ev with
  | GetLockableResources _ => true
  | _ => false
  end.

(** The (entry, resource) pairs handed to a dispatch thread. *)
Fixpoint dispatches (evs : list event) : list (Rqueue * pydict) :=
  match evs with
  | [] => []
  | ThreadStart _ q r :: rest => (q, r) :: dispatches rest
  | _ :: rest => dispatches rest
  end.

(** ** The environment *)

(** [ResourceLockerConnection] ([service_base/connection.py], not among
    the sources) is the client of the remote registry.  Each method is
    a transition of the world that returns a value or raises. *)
Record ResourceLockerConnection (W : Type) : Type := {
  get_queues : string -> W -> result (list pydict) * W;
  change_queue : pyval -> pydict -> W -> result Response * W;
  abort_queue : pyval -> string -> W -> result unit * W;
  get_lockable_resources : pydict -> W -> result (list pydict) * W;
  lock_resource : pydict -> pyval -> pyval -> W -> result Response * W
}.

(** Everything else the service imports: the heartbeat test
    [queue_has_beat], the section [conf["svc"]] of the settings, the
    built-in conversion [str] that f-strings apply, the thread table of
    the [threading] module, and the class [Rqueue] (its constructor,
    which extends [Rqueue.all], and [group_all], which fills
    [Rqueue.grouped_queues]). *)
Record Env (W : Type) : Type := {
  rlocker : ResourceLockerConnection W;
  queue_has_beat : pyval -> pyval -> W -> result bool * W;
  conf_svc : pydict;
  py_str : pyval -> string;
  threading_enumerate : W -> list string * W;
  thread_start : string -> Rqueue -> pydict -> W -> W;
  Rqueue_init : pyval -> pyval -> pyval -> list Rqueue -> result (list Rqueue);
  Rqueue_group_all : list Rqueue -> list Group -> result (list Group)
}.

(** ** Program state *)

(** The instance attributes of [QueueService]. *)
Record QueueService : Type := {
  initializing_queues : list pydict;
  pending_queues : option (list pydict)
}.

Record St (W : Type) : Type := {
  world : W;
  log : list event;
  self : QueueService;
  Rqueue_all : list Rqueue;
  Rqueue_grouped_queues : list Group
}.

(** [l[i] = f(l[i])]; the loops below only use indices in range. *)
Fixpoint alter_nth {A : Type} (f : A -> A) (i : nat) (l : list A) : list A :=
  match l, i with
  | [], _ => []
  | x :: rest, O => f x :: rest
  | x :: rest, S i' => x :: alter_nth f i' rest
  end.

Section Monad.
Context {W : Type}.

Definition M (A : Type) : Type := St W -> result A * St W.

Definition ret {A : Type} (a : A) : M A := fun s => (Ok a, s).

Definition bind {A B : Type} (m : M A) (k : A -> M B) : M B :=
  fun s =>
    match m s with
    | (Ok a, s') => k a s'
    | (Raise e, s') => (Raise e, s')
    end.

Definition raise {A : Type} (e : exn) : M A := fun s => (Raise e, s).

Definition lift {A : Type} (r : result A) : M A := fun s => (r, s).

Definition get_state : M (St W) := fun s => (Ok s, s).

Definition record (ev : event) (s : St W) : St W :=
  {| world := world s; log := log s ++ [ev]; self := self s;
     Rqueue_all := Rqueue_all s;
     Rqueue_grouped_queues := Rqueue_grouped_queues s |}.

Definition with_world (w : W) (s : St W) : St W :=
  {| world := w; log := log s; self := self s;
     Rqueue_all := Rqueue_all s;
     Rqueue_grouped_queues := Rqueue_grouped_queues s |}.

Definition with_self (q : QueueService) (s : St W) : St W :=
  {| world := world s; log := log s; self := q;
     Rqueue_all := Rqueue_all s;
     Rqueue_grouped_queues := Rqueue_grouped_queues s |}.

Definition with_all (l : list Rqueue) (s : St W) : St W :=
  {| world := world s; log := log s; self := self s;
     Rqueue_all := l;
     Rqueue_grouped_queues := Rqueue_grouped_queues s |}.

Definition with_grouped (gs : list Group) (s : St W) : St W :=
  {| world := world s; log := log s; self := self s;
     Rqueue_all := Rqueue_all s;
     Rqueue_grouped_queues := gs |}.

(** Recording a call without an answer (a [print]). *)
Definition emit (ev : event) : M unit := fun s => (Ok tt, record ev s).

(** Issuing a call: it is recorded, then the environment answers. *)
Definition call {A : Type} (ev : event) (f : W -> result A * W) : M A :=
  fun s =>
    let s1 := record ev s in
    let (r, w) := f (world s1) in (r, with_world w s1).

(** A step of the environment that leaves no trace in the log. *)
Definition ask {A : Type} (f : W -> A * W) : M A :=
  fun s => let (a, w) := f (world s) in (Ok a, with_world w s).
End Monad.

Declare Scope py_scope.
Delimit Scope py_scope with py.
Notation "x <- m ;; k" := (bind m (fun x => k))
  (at level 100, m at next level, right associativity) : py_scope.
Notation "m ;;; k" := (bind m (fun _ => k))
  (at level 100, right associativity) : py_scope.
Open Scope py_scope.

(** ** The class [QueueService] *)

Section QueueService.
Context {W : Type} (E : Env W).

(** [conf["svc"].get("QUEUE_BEAT_TIMEOUT")] *)
Definition QUEUE_BEAT_TIMEOUT : pyval := dict_get (conf_svc E) "QUEUE_BEAT_TIMEOUT".

(** [__init__] *)
Definition init : M (W := W) unit :=
  qs <- call (GetQueues const.STATUS_INITIALIZING)
             (get_queues (rlocker E) const.STATUS_INITIALIZING) ;;
  fun s => (Ok tt,
            with_self {| initializing_queues := qs; pending_queues := None |} s).

(** *** [put_queues_on_pending] *)

Definition not_changed_msg (queue_id : pyval) : string :=
  "There was a problem changing queue with ID " ++ py_str E queue_id
    ++ " to " ++ const.STATUS_PENDING ++ "! " ++ nl
    ++ "Unrecoverable error. Service Exiting...".

(** The body of the [for] loop, over the entries that remain. *)
Fixpoint promote (initializing : list pydict) : M (W := W) unit :=
  match initializing with
  | [] => ret tt
  | queue :: rest =>
      let queue_id := dict_get queue "id" in
      let kwargs := [("status", PyStr "PENDING")] in
      queue_response <- call (ChangeQueue queue_id kwargs)
                             (change_queue (rlocker E) queue_id kwargs) ;;
      body <- lift (json queue_response) ;;
      fields <- lift (py_dict body) ;;
      let is_queue_changed :=
        eq_str (pairs_get fields "status") const.STATUS_PENDING in
      if negb is_queue_changed then
        emit (Print (not_changed_msg queue_id)) ;;;
        raise (SystemExit None)
      else promote rest
  end.

Definition put_queues_on_pending : M (W := W) unit :=
  s <- get_state ;;
  let initializing := initializing_queues (self s) in
  promote initializing ;;;
  (* the [else] of the loop: no [sys.exit()] was reached *)
  emit (Print (if Nat.ltb 0 (List.length initializing)
               then "Service put all queues on " ++ const.STATUS_PENDING
                      ++ " successfully! " ++ nl
               else "No queues to Initialize. " ++ nl)) ;;;
  pending <- call (GetQueues const.STATUS_PENDING)
                  (get_queues (rlocker E) const.STATUS_PENDING) ;;
  emit (Print ("Total Queues that are " ++ const.STATUS_PENDING ++ ": "
                 ++ py_str E (PyInt (Z.of_nat (List.length pending))))).

(** *** [instantiate_pending_queue_objects] *)

Fixpoint instantiate (pending : list pydict) : M (W := W) unit :=
  match pending with
  | [] => ret tt
  | queue :: rest =>
      s <- get_state ;;
      all <- lift (Rqueue_init E (dict_get queue "id")
                     (dict_get queue "priority") (dict_get queue "data")
                     (Rqueue_all s)) ;;
      (fun s' => (Ok tt, with_all all s')) ;;;
      instantiate rest
  end.

Definition instantiate_pending_queue_objects : M (W := W) unit :=
  s <- get_state ;;
  match pending_queues (self s) with
  | None => raise TypeError
  | Some pending => instantiate pending
  end.

(** *** [queue_beat_check] *)

Definition orphan_msg : string :=
  "This queue was an orphan queue! " ++ nl
    ++ "There was no associated client, because queue was not beating "
    ++ " in the last " ++ py_str E QUEUE_BEAT_TIMEOUT ++ " seconds".

Definition queue_beat_check (next_queue : Rqueue) (next_resource : pydict)
  : M (W := W) unit :=
  has_beat <- call (QueueHasBeat (id next_queue) QUEUE_BEAT_TIMEOUT)
                   (queue_has_beat E (id next_queue) QUEUE_BEAT_TIMEOUT) ;;
  if has_beat : bool then
    let signoff := dict_get (data next_queue) "signoff" in
    let link := dict_get (data next_queue) "link" in
    attempt_lock <- call (LockResource next_resource signoff link)
                         (lock_resource (rlocker E) next_resource signoff link) ;;
    shown <- lift (json attempt_lock) ;;
    emit (PrintObj shown) ;;;
    body <- lift (json attempt_lock) ;;
    is_locked <- lift (py_get body "is_locked") ;;
    if truthy is_locked then
      let kwargs := [("status", PyStr const.STATUS_FINISHED);
                     ("final_resource", dict_get next_resource "name")] in
      call (ChangeQueue (id next_queue) kwargs)
           (change_queue (rlocker E) (id next_queue) kwargs) ;;;
      ret tt
    else
      let kwargs := [("status", PyStr const.STATUS_FAILED);
                     ("description",
                      PyStr (str_slice_to 2048 (text attempt_lock)))] in
      call (ChangeQueue (id next_queue) kwargs)
           (change_queue (rlocker E) (id next_queue) kwargs) ;;;
      ret tt
  else
    call (AbortQueue (id next_queue) orphan_msg)
         (abort_queue (rlocker E) (id next_queue) orphan_msg).

(** *** [run] *)

(** Lines 33-42: the free resources of a group. *)
Definition free_resources (group : Group) : M (W := W) (list pydict) :=
  if eq_str (group_type group) "label" then
    let kwargs := [("free_only", PyBool true);
                   ("label_matches", group_name group)] in
    call (GetLockableResources kwargs)
         (get_lockable_resources (rlocker E) kwargs)
  else if eq_str (group_type group) "name" then
    let kwargs := [("free_only", PyBool true);
                   ("name", group_name group)] in
    call (GetLockableResources kwargs)
         (get_lockable_resources (rlocker E) kwargs)
  else raise (Exception "Group type should be either name or label!").

Definition thread_name (next_queue : Rqueue) : string :=
  "Thread-" ++ py_str E (id next_queue).

(** Lines 52-61: the thread of the pair is started unless a thread of
    that name is alive. *)
Definition fire (next_queue : Rqueue) (next_resource : pydict)
  : M (W := W) unit :=
  alive_threads_names <- ask (threading_enumerate E) ;;
  let is_thread_already_fired :=
    existsb (String.eqb (thread_name next_queue)) alive_threads_names in
  if negb is_thread_already_fired then
    call (ThreadStart (thread_name next_queue) next_queue next_resource)
         (fun w => (Ok tt, thread_start E (thread_name next_queue)
                             next_queue next_resource w))
  else ret tt.

(** [group["queues"].pop(0)] on the group at position [i]. *)
Definition without_first (g : Group) : Group :=
  {| group_type := group_type g; group_name := group_name g;
     queues := tl (queues g) |}.

Definition popped (i : nat) (s : St W) : St W :=
  with_grouped (alter_nth without_first i (Rqueue_grouped_queues s)) s.

Definition pop_queue (i : nat) : M (W := W) unit :=
  fun s => (Ok tt, popped i s).

(** One turn of the loop, for the group at position [i]. *)
Definition run_group (i : nat) (group : Group) : M (W := W) unit :=
  resources <- free_resources group ;;
  match resources with
  | [] => ret tt
  | next_resource :: _ =>
      match queues group with
      | [] => raise IndexError
      | next_queue :: _ =>
          pop_queue i ;;;
          fire next_queue next_resource
      end
  end.

Fixpoint run_groups (i : nat) (groups : list Group) : M (W := W) unit :=
  match groups with
  | [] => ret tt
  | group :: rest => run_group i group ;;; run_groups (S i) rest
  end.

Definition run : M (W := W) unit :=
  put_queues_on_pending ;;;
  pending <- call (GetQueues const.STATUS_PENDING)
                  (get_queues (rlocker E) const.STATUS_PENDING) ;;
  (fun s => (Ok tt,
             with_self {| initializing_queues := initializing_queues (self s);
                          pending_queues := Some pending |} s)) ;;;
  instantiate_pending_queue_objects ;;;
  s <- get_state ;;
  grouped <- lift (Rqueue_group_all E (Rqueue_all s) (Rqueue_grouped_queues s)) ;;
  (fun s' => (Ok tt, with_grouped grouped s')) ;;;
  emit (PPrint grouped) ;;;
  run_groups 0 grouped.
End QueueService.

(** The calls issued between two states of a run. *)
Definition issued {W : Type} (s s' : St W) : list event :=
  skipn (List.length (log s)) (log s').

(** ** A concrete environment

    A registry whose answers are fixed by a script, and the thread
    table of the interpreter as a list of the threads alive.  The
    examples and the interleaving semantics of dispatch threads below
    run the service in it. *)

Record Thread : Type := {
  t_name : string;
  t_target : option (Rqueue * pydict)
}.

Record Script : Type := {
  queues_of : string -> list pydict;
  change_answer : pyval -> pydict -> Response;
  free_of : pydict -> list pydict;
  lock_answer : pydict -> Response;
  beat_of : pyval -> bool;
  settings : pydict
}.

(** [str] on the scalars that the examples format; lists and
    dictionaries are not formatted in them. *)
Definition str_scalar (v : pyval) : string :=
  match v with
  | PyNone => "None"
  | PyBool true => "True"
  | PyBool false => "False"
  | PyInt z => NilZero.string_of_int (Z.to_int z)
  | PyStr s => s
  | PyList _ => "[...]"
  | PyDict _ => "{...}"
  end.

Fixpoint pyval_eqb (a b : pyval) {struct a} : bool :=
  match a, b with
  | PyNone, PyNone => true
  | PyBool x, PyBool y => Bool.eqb x y
  | PyInt x, PyInt y => Z.eqb x y
  | PyStr x, PyStr y => String.eqb x y
  | PyList xs, PyList ys =>
      (fix all2 (xs ys : list pyval) {struct xs} : bool :=
         match xs, ys with
         | [], [] => true
         | x :: xs', y :: ys' => pyval_eqb x y && all2 xs' ys'
         | _, _ => false
         end) xs ys
  | PyDict xs, PyDict ys =>
      (fix all2 (xs ys : list (string * pyval)) {struct xs} : bool :=
         match xs, ys with
         | [], [] => true
         | (k, x) :: xs', (k', y) :: ys' =>
             String.eqb k k' && pyval_eqb x y && all2 xs' ys'
         | _, _ => false
         end) xs ys
  | _, _ => false
  end.

(** Modelled from the spec: the constructor of [Rqueue] (absent from
    the sources) registers the new entry at the end of [Rqueue.all];
    its [data] is a mapping. *)
Definition Rqueue_init_spec (id_ priority_ data_ : pyval) (all : list Rqueue)
  : result (list Rqueue) :=
  match data_ with
  | PyDict d =>
      Ok (all ++ [{| id := id_; priority := priority_; data := d |}])%list
  | _ => Raise TypeError
  end.

(** Modelled from the spec: [Rqueue.group_all] (absent from the
    sources) is the Grouper of section 4.1.  Entries with the same
    selector type and value are collected in one group, groups in the
    order of the first appearance of their selector, members in the
    order of appearance. *)
Definition selector (q : Rqueue) : pyval * pyval :=
  match dict_get (data q) "resource_selector" with
  | PyDict sel => (dict_get sel "type", dict_get sel "value")
  | _ => (PyNone, PyNone)
  end.

Fixpoint add_to_groups (q : Rqueue) (groups : list Group) : list Group :=
  match groups with
  | [] => [{| group_type := fst (selector q); group_name := snd (selector q);
              queues := [q] |}]
  | g :: rest =>
      if pyval_eqb (group_type g) (fst (selector q))
         && pyval_eqb (group_name g) (snd (selector q))
      then {| group_type := group_type g; group_name := group_name g;
              queues := queues g ++ [q] |} :: rest
      else g :: add_to_groups q rest
  end.

Definition group_all_spec (all : list Rqueue) (grouped : list Group)
  : result (list Group) :=
  Ok (fold_left (fun groups q => add_to_groups q groups) all grouped).

Definition sim_rlocker (sc : Script) : ResourceLockerConnection (list Thread) :=
  {| get_queues := fun status w => (Ok (queues_of sc status), w);
     change_queue := fun queue_id kwargs w => (Ok (change_answer sc queue_id kwargs), w);
     abort_queue := fun _ _ w => (Ok tt, w);
     get_lockable_resources := fun kwargs w => (Ok (free_of sc kwargs), w);
     lock_resource := fun resource _ _ w => (Ok (lock_answer sc resource), w) |}.

Definition sim (sc : Script) : Env (list Thread) :=
  {| rlocker := sim_rlocker sc;
     queue_has_beat := fun queue_id _ w => (Ok (beat_of sc queue_id), w);
     conf_svc := settings sc;
     py_str := str_scalar;
     threading_enumerate := fun w => (map t_name w, w);
     thread_start := fun name q r w =>
                       (w ++ [{| t_name := name; t_target := Some (q, r) |}])%list;
     Rqueue_init := Rqueue_init_spec;
     Rqueue_group_all := group_all_spec |}.

(** The interpreter at start-up: only the main thread is alive. *)
Definition boot (initializing : list pydict) : St (list Thread) :=
  {| world := [{| t_name := "MainThread"; t_target := None |}];
     log := [];
     self := {| initializing_queues := initializing; pending_queues := None |};
     Rqueue_all := [];
     Rqueue_grouped_queues := [] |}.

(** *** Interleaving of the beat thread and the dispatch threads

    [threading.enumerate] reads the table of the threads alive and
    [Thread.start] adds the new thread to it; [alive] is the table of a
    world.  The beat thread is the only one that starts threads, by the
    lines 52-61 of [run].  A thread that is alive may end at any
    moment, which removes it from the table; everything else that
    happens (the calls of the registry, the work of the attempts)
    leaves the table as it is. *)
Definition has_thread_table {W : Type} (E : Env W) (alive : W -> list Thread)
  : Prop :=
  (forall w, threading_enumerate E w = (map t_name (alive w), w))
  /\ (forall name q r w,
        alive (thread_start E name q r w)
        = (alive w ++ [{| t_name := name; t_target := Some (q, r) |}])%list).

Inductive step {W : Type} (E : Env W) (alive : W -> list Thread)
  : St W -> St W -> Prop :=
| step_fire (q : Rqueue) (r : pydict) (s : St W) :
    step E alive s (snd (fire E q r s))
| step_end (before after : list Thread) (t : Thread) (s s' : St W) :
    alive (world s) = (before ++ t :: after)%list ->
    alive (world s') = (before ++ after)%list ->
    step E alive s s'
| step_other (s s' : St W) :
    alive (world s') = alive (world s) ->
    step E alive s s'.

Inductive reachable {W : Type} (E : Env W) (alive : W -> list Thread) (s0 : St W)
  : St W -> Prop :=
| reach_start : reachable E alive s0 s0
| reach_step (s s' : St W) :
    reachable E alive s0 s -> step E alive s s' -> reachable E alive s0 s'.

(** No dispatch thread is alive. *)
Definition quiet (w : list Thread) : Prop :=
  forall t, In t w -> t_target t = None.

(** The attempts in flight: the entries of the dispatch threads that
    are alive. *)
Fixpoint in_flight (w : list Thread) : list Rqueue :=
  match w with
  | [] => []
  | t :: rest =>
      match t_target t with
      | Some (q, _) => q :: in_flight rest
      | None => in_flight rest
      end
  end.

(** Every dispatch thread carries the name derived from its entry, and
    no two of them carry the same name. *)
Definition named_after_entry {W : Type} (E : Env W) (t : Thread) : Prop :=
  match t_target t with
  | Some (q, _) => t_name t = thread_name E q
  | None => True
  end.

Definition tidy {W : Type} (E : Env W) (w : list Thread) : Prop :=
  NoDup (map (thread_name E) (in_flight w))
  /\ Forall (named_after_entry E) w.

(** *** Sample data *)

Definition dq : string := String "034"%char EmptyString.
Definition quoted (s : string) : string := dq ++ s ++ dq.

Definition pool_A : pydict := [("name", PyStr "pool-A"); ("labels", PyList [])].

Definition E1 : Rqueue :=
  {| id := PyInt 1; priority := PyInt 0;
     data := [("resource_selector",
               PyDict [("type", PyStr "name"); ("value", PyStr "pool-A")]);
              ("signoff", PyStr "alice"); ("link", PyStr "http://ci/1")] |}.

Definition E2 : Rqueue :=
  {| id := PyInt 2; priority := PyInt 0;
     data := [("resource_selector",
               PyDict [("type", PyStr "region"); ("value", PyStr "eu")]);
              ("signoff", PyStr "bob"); ("link", PyStr "http://ci/2")] |}.

(** Responses of the registry: the body as text and as decoded. *)
Definition locked_body : Response :=
  {| text := "{" ++ quoted "is_locked" ++ ": true}";
     json := Ok (PyDict [("is_locked", PyBool true)]) |}.

Definition busy_text : string :=
  "{" ++ quoted "is_locked" ++ ": false, " ++ quoted "detail" ++ ": "
      ++ quoted "busy" ++ "}".

Definition busy_body : Response :=
  {| text := busy_text;
     json := Ok (PyDict [("is_locked", PyBool false); ("detail", PyStr "busy")]) |}.

Definition status_body (status : string) : Response :=
  {| text := "{" ++ quoted "status" ++ ": " ++ quoted status ++ "}";
     json := Ok (PyDict [("status", PyStr status)]) |}.

Fixpoint repeat_str (c : ascii) (n : nat) : string :=
  match n with
  | O => EmptyString
  | S n' => String c (repeat_str c n')
  end.

(** A denial whose detail has 3000 characters. *)
Definition long_text : string :=
  "{" ++ quoted "is_locked" ++ ": false, " ++ quoted "detail" ++ ": "
      ++ quoted (repeat_str "x"%char 3000) ++ "}".

Definition long_body : Response :=
  {| text := long_text;
     json := Ok (PyDict [("is_locked", PyBool false);
                         ("detail", PyStr (repeat_str "x"%char 3000))]) |}.

(** The registry of the examples: it confirms every change of status
    except for the entries in [stuck], knows one free resource,
    [pool-A], answers every lock request with [lock], and the heartbeat
    store answers [beat] for every entry. *)
Definition confirm (kwargs : pydict) : Response :=
  match dict_get kwargs "status" with
  | PyStr status => status_body status
  | _ => status_body "INITIALIZING"
  end.

Definition script_with (pending : list pydict) (lock : Response) (beat : bool)
           (stuck : pyval -> bool) : Script :=
  {| queues_of := fun status =>
                    if String.eqb status const.STATUS_PENDING then pending else [];
     change_answer := fun queue_id kwargs =>
                        if stuck queue_id then status_body "INITIALIZING"
                        else confirm kwargs;
     free_of := fun kwargs =>
                  if pyval_eqb (dict_get kwargs "name") (PyStr "pool-A")
                  then [pool_A] else [];
     lock_answer := fun _ => lock;
     beat_of := fun _ => beat;
     settings := [("INTERVAL", PyInt 5); ("QUEUE_BEAT_TIMEOUT", PyInt 30)] |}.

Definition script : Response -> bool -> (pyval -> bool) -> Script :=
  script_with [].

Definition nobody (queue_id : pyval) : bool := false.

(** Groups as [Rqueue.group_all] leaves them: two entries wait for
    [pool-A], one for a resource selected by region, one for [pool-B],
    of which nothing is free. *)
Definition E3 : Rqueue :=
  {| id := PyInt 3; priority := PyInt 0;
     data := [("resource_selector",
               PyDict [("type", PyStr "name"); ("value", PyStr "pool-A")]);
              ("signoff", PyStr "carol"); ("link", PyStr "http://ci/3")] |}.

Definition E4 : Rqueue :=
  {| id := PyInt 4; priority := PyInt 0;
     data := [("resource_selector",
               PyDict [("type", PyStr "name"); ("value", PyStr "pool-B")]);
              ("signoff", PyStr "dave"); ("link", PyStr "http://ci/4")] |}.

Definition group_A : Group :=
  {| group_type := PyStr "name"; group_name := PyStr "pool-A"; queues := [E1; E3] |}.


Definition group_B : Group :=
  {| group_type := PyStr "name"; group_name := PyStr "pool-B"; queues := [E4] |}.

(** The state of a beat once the groups are built. *)
Definition grouped_state (groups : list Group) : St (list Thread) :=
  with_grouped groups (boot []).

(** The same with the dispatch thread of entry 1 still alive. *)
Definition busy_state (groups : list Group) : St (list Thread) :=
  with_world [{| t_name := "MainThread"; t_target := None |};
              {| t_name := "Thread-1"; t_target := Some (E1, pool_A) |}]
             (grouped_state groups).

(** An entry as the registry lists it. *)
Definition listed (q : Rqueue) : pydict :=
  [("id", id q); ("priority", priority q); ("data", PyDict (data q))].

(** Two entries left in [INITIALIZING] by a previous run. *)
Definition two_initializing : list pydict :=
  [[("id", PyInt 1); ("status", PyStr "INITIALIZING")];
   [("id", PyInt 2); ("status", PyStr "INITIALIZING")]].

(** The registry does not confirm changes of the entry with id 2. *)
Definition is_two (queue_id : pyval) : bool := pyval_eqb queue_id (PyInt 2).

(** The exception of [run] for a group that is neither by name nor by
    label. *)
Definition bad_type : exn :=
  Exception "Group type should be either name or label!".

(** ** The rest of the beat *)

(** The call that promotes one entry of [self.initializing_queues]. *)
Definition promote_call (queue : pydict) : event :=
  ChangeQueue (dict_get queue "id") [("status", PyStr "PENDING")].

(** The query that [run] sends for a group by label or by name. *)
Definition group_query (group : Group) : event :=
  if eq_str (group_type group) "label" then
    GetLockableResources [("free_only", PyBool true);
                          ("label_matches", group_name group)]
  else
    GetLockableResources [("free_only", PyBool true);
                          ("name", group_name group)].

(** What a turn of the loop may do to a group: nothing, or remove its
    first entry. *)
Definition served (g g' : Group) : Prop :=
  group_type g' = group_type g
  /\ group_name g' = group_name g
  /\ (queues g' = queues g \/ queues g' = tl (queues g)).

(** The calls of the matcher: a query for free resources, or the start
    of a dispatch thread. *)
Definition is_matching (ev : event) : bool :=
  match ev with
  | GetLockableResources _ | ThreadStart _ _ _ => true
  | _ => false
  end.

(** The part of the operating system that [__exit__] uses: the clock,
    the shell, and the file of the health log, opened for appending and
    then written.  [now_timestamp] is the text of
    [get_time().timestamp()]; [STATUS_LOGS_FILE] is the constant of
    that name; [sleep_max] is the longest pause in seconds that
    [time.sleep] accepts on the platform. *)
Record Os (W : Type) : Type := {
  os_name : string;
  os_system : string -> W -> W;
  sleep_max : Z;
  sleep_for : Z -> W -> W;
  now_timestamp : W -> string * W;
  open_append : string -> W -> result unit * W;
  write_line : string -> W -> result unit * W;
  STATUS_LOGS_FILE : string
}.

(** [time.sleep] holds the length of the pause in nanoseconds in a
    signed 64-bit integer: a number of seconds beyond 9223372036 in
    either direction cannot be converted. *)
Definition seconds_max : Z := 9223372036.

(** The argument of [time.sleep]: an integer (a boolean counts as 0 or
    1).  The conversion comes first and raises [OverflowError] out of
    its range; a negative length raises [ValueError]; a length that the
    platform cannot wait for raises [OverflowError]; anything that is
    not a number raises [TypeError]. *)
Definition sleep_seconds (platform_max : Z) (v : pyval) : result Z :=
  match v with
  | PyInt z =>
      if Z.ltb seconds_max (Z.abs z) then Raise OverflowError
      else if Z.ltb z 0 then Raise ValueError
      else if Z.ltb platform_max z then Raise OverflowError
      else Ok z
  | PyBool b => Ok (if b then 1%Z else 0%Z)
  | _ => Raise TypeError
  end.

Section EndOfBeat.
Context {W : Type} (E : Env W) (O : Os W).

(** [__exit__]: the pause, the cleared screen, the cleared class
    attributes of [Rqueue], and the line of the health log. *)
Definition __exit__ : M (W := W) unit :=
  seconds <- lift (sleep_seconds (sleep_max O)
                     (dict_get (conf_svc E) "INTERVAL")) ;;
  ask (fun w => (tt, sleep_for O seconds w)) ;;;
  ask (fun w => (tt, os_system O
                       (if String.eqb (os_name O) "nt" then "cls" else "clear") w)) ;;;
  (fun s => (Ok tt, with_all [] s)) ;;;
  (fun s => (Ok tt, with_grouped [] s)) ;;;
  (fun s => let (r, w) := open_append O (STATUS_LOGS_FILE O) (world s) in
            (r, with_world w s)) ;;;
  stamp <- ask (now_timestamp O) ;;
  fun s => let (r, w) := write_line O (nl ++ "TIMESTAMP:" ++ stamp ++ ",") (world s) in
           (r, with_world w s).
End EndOfBeat.

(** The operating system of the examples: the world is the thread
    table, which the clock, the shell and the log file leave alone. *)
Definition sim_os : Os (list Thread) :=
  {| os_name := "posix";
     os_system := fun _ w => w;
     sleep_max := seconds_max;
     sleep_for := fun _ w => w;
     now_timestamp := fun w => ("1700000000.0", w);
     open_append := fun _ w => (Ok tt, w);
     write_line := fun _ w => (Ok tt, w);
     STATUS_LOGS_FILE := "status.log" |}.

(** Settings without [INTERVAL]. *)
Definition script_no_interval : Script :=
  {| queues_of := fun _ => [];
     change_answer := fun _ kwargs => confirm kwargs;
     free_of := fun _ => [];
     lock_answer := fun _ => locked_body;
     beat_of := fun _ => true;
     settings := [("QUEUE_BEAT_TIMEOUT", PyInt 30)] |}.

(** Answers of the registry that are not what the service expects: a
    body that is no JSON document, and a JSON document that is no
    object. *)
Definition html_body : Response :=
  {| text := "<html>502 Bad Gateway</html>"; json := Raise JSONDecodeError |}.

Definition list_body : Response :=
  {| text := "[]"; json := Ok (PyList []) |}.

Definition unlabelled_body : Response :=
  {| text := "{" ++ quoted "detail" ++ ": " ++ quoted "busy" ++ "}";
     json := Ok (PyDict [("detail", PyStr "busy")]) |}.

(** A group that lost its entries. *)
Definition group_empty : Group :=
  {| group_type := PyStr "name"; group_name := PyStr "pool-A"; queues := [] |}.

(** A relation between the state before and the state after that a
    computation keeps, whether it returns or raises. *)
Definition preserves {W A : Type} (R : St W -> St W -> Prop) (m : M (W := W) A)
  : Prop :=
  forall s, R s (snd (m s)).

(** The log grows by calls that all satisfy [Q]. *)
Definition extends {W : Type} (Q : event -> Prop) (s s' : St W) : Prop :=
  exists calls, log s' = (log s ++ calls)%list /\ Forall Q calls.

(** The log grows by calls that satisfy [Q] and the list of entries
    to promote stays the one it was. *)
Definition keeps {W : Type} (Q : event -> Prop) (s s' : St W) : Prop :=
  extends Q s s'
  /\ initializing_queues (self s') = initializing_queues (self s).

(** What the beat thread may issue besides queries, prints and thread
    starts: the promotion of an entry of [initializing]. *)
Definition beat_call (initializing : list pydict) (ev : event) : Prop :=
  match ev with
  | ChangeQueue _ _ => exists queue, In queue initializing /\ ev = promote_call queue
  | AbortQueue _ _ | LockResource _ _ _ | QueueHasBeat _ _ => False
  | _ => True
  end.

(** The report after the loop, for a list that was promoted. *)
Definition promoted_line (initializing : list pydict) : string :=
  if Nat.ltb 0 (List.length initializing)
  then "Service put all queues on PENDING successfully! " ++ nl
  else "No queues to Initialize. " ++ nl.

(** ** The vSphere inventory and the sync service

    [resource_sync_service/vsphere_base.py] looks up datacenters,
    clusters and resource pools by name in the inventory that
    [RetrieveContent] returns.  The managed objects of the inventory
    are records with the attributes the lookups read:
    [rootFolder.childEntity] is the list of datacenters,
    [hostFolder.childEntity] the clusters of a datacenter,
    [resourcePool.resourcePool] the pools of a cluster and [vm] the
    machines of a pool.  A managed object is true in a condition. *)
Record VirtualMachine : Type := {
  vm_name : string;
  vm_moid : string
}.

Record ResourcePool : Type := {
  rp_name : string;
  vm : list VirtualMachine
}.

Record Cluster : Type := {
  cluster_name : string;
  resourcePool : list ResourcePool
}.

Record Datacenter : Type := {
  dc_name : string;
  hostFolder : list Cluster
}.

Definition Content : Type := list Datacenter.

(** [sorted] on a list of strings, which are compared character by
    character. *)
Fixpoint insert_sorted (x : string) (l : list string) : list string :=
  match l with
  | [] => [x]
  | y :: rest => if String.leb x y then x :: y :: rest
                 else y :: insert_sorted x rest
  end.

Fixpoint py_sorted (l : list string) : list string :=
  match l with
  | [] => []
  | x :: rest => insert_sorted x (py_sorted rest)
  end.

Module Vsphere.
(** [get_dc]: the first datacenter of that name, [None] without one. *)
Definition get_dc (content : Content) (name : string) : option Datacenter :=
  find (fun dc => String.eqb (dc_name dc) name) content.

(** [get_cluster]: [None.hostFolder] raises when the datacenter is
    missing. *)
Definition get_cluster (content : Content) (name dc : string)
  : result (option Cluster) :=
  match get_dc content dc with
  | None => Raise AttributeError
  | Some d => Ok (find (fun cluster => String.eqb (cluster_name cluster) name)
                    (hostFolder d))
  end.

Definition cluster_pools (content : Content) (dc cluster : string)
  : result (list ResourcePool) :=
  match get_cluster content cluster dc with
  | Raise e => Raise e
  | Ok None => Raise AttributeError
  | Ok (Some cluster_obj) => Ok (resourcePool cluster_obj)
  end.

Definition get_pool (content : Content) (name dc cluster : string)
  : result (option ResourcePool) :=
  match cluster_pools content dc cluster with
  | Raise e => Raise e
  | Ok pools => Ok (find (fun rp => String.eqb (rp_name rp) name) pools)
  end.

Definition is_resource_pool_exist (content : Content) (pool dc cluster : string)
  : result bool :=
  match get_pool content pool dc cluster with
  | Raise e => Raise e
  | Ok (Some _) => Ok true
  | Ok None => Ok false
  end.

Definition get_all_pools (content : Content) (dc cluster : string)
  : result (list string) :=
  match cluster_pools content dc cluster with
  | Raise e => Raise e
  | Ok pools => Ok (py_sorted (map rp_name pools))
  end.

Definition is_resource_pool_prefix_exist (content : Content)
           (pool_prefix dc cluster : string) : result bool :=
  match cluster_pools content dc cluster with
  | Raise e => Raise e
  | Ok pools => Ok (existsb (fun rp => String.prefix pool_prefix (rp_name rp)) pools)
  end.

(** [get_all_vms_in_pool] reads the inventory twice: [content] for
    [get_pool], [content'] for the test of existence that follows. *)
Definition get_all_vms_in_pool (content content' : Content)
           (name dc cluster : string) : result (list VirtualMachine) :=
  match get_pool content name dc cluster with
  | Raise e => Raise e
  | Ok rp =>
      match is_resource_pool_exist content' name dc cluster with
      | Raise e => Raise e
      | Ok false => Raise (Exception "Resource Not Found")
      | Ok true =>
          match rp with
          | None => Raise AttributeError
          | Some pool => Ok (vm pool)
          end
      end
  end.

Definition get_compute_vms_in_pool (content content' : Content)
           (name dc cluster : string) : result (list VirtualMachine) :=
  match get_all_vms_in_pool content content' name dc cluster with
  | Raise e => Raise e
  | Ok vms => Ok (filter (fun v => String.prefix "compute" (vm_name v)) vms)
  end.
End Vsphere.

(** [ResourceSyncService]: the registry, the calls issued and
    [self.collection]. *)
Record SyncSt (W : Type) : Type := {
  sync_world : W;
  sync_log : list event;
  collection : list pydict
}.

Section ResourceSyncService.
Context {W : Type} (rl : ResourceLockerConnection W).

(** [self.dc_kwargs] *)
Definition dc_kwargs : string * string := ("Datacenter-CP", "Cluster-1").

Definition pool_status (pool : string) (locked : bool) : pydict :=
  [("pool_name", PyStr pool); ("has_associated_lock", PyBool locked)].

(** The loop of [actual_vs_locked_status] over the pools. *)
Fixpoint check_pools (pools : list string) (st : SyncSt W)
  : result unit * SyncSt W :=
  match pools with
  | [] => (Ok tt, st)
  | pool :: rest =>
      let kwargs := [("signoff", PyStr pool)] in
      let asked := (sync_log st ++ [GetLockableResources kwargs])%list in
      match get_lockable_resources rl kwargs (sync_world st) with
      | (Raise e, w) =>
          (Raise e, {| sync_world := w; sync_log := asked;
                       collection := collection st |})
      | (Ok check_resource, w) =>
          let has_lock := match check_resource with
                          | [] => false
                          | _ :: _ => true
                          end in
          check_pools rest
            {| sync_world := w; sync_log := asked;
               collection := (collection st ++ [pool_status pool has_lock])%list |}
      end
  end.

(** [actual_vs_locked_status], for the inventory that the call of
    [get_all_pools] retrieves. *)
Definition actual_vs_locked_status (content : Content) (st : SyncSt W)
  : result unit * SyncSt W :=
  match Vsphere.get_all_pools content (fst dc_kwargs) (snd dc_kwargs) with
  | Raise e => (Raise e, st)
  | Ok pools =>
      check_pools pools
        {| sync_world := sync_world st;
           sync_log := (sync_log st ++ [PrintObj (PyList (map PyStr pools))])%list;
           collection := collection st |}
  end.

(** [run] of the sync service. *)
Definition sync_run (content : Content) (st : SyncSt W) : result unit * SyncSt W :=
  match actual_vs_locked_status content st with
  | (Raise e, st') => (Raise e, st')
  | (Ok _, st') =>
      (Ok tt, {| sync_world := sync_world st';
                 sync_log := (sync_log st'
                                ++ map (fun c => PrintObj (PyDict c)) (collection st'))%list;
                 collection := collection st' |})
  end.
End ResourceSyncService.

(** A registry in which the resources signed off by [pool-A] are
    locked. *)
Definition signoff_script : Script :=
  {| queues_of := fun _ => [];
     change_answer := fun _ kwargs => confirm kwargs;
     free_of := fun kwargs =>
                  if pyval_eqb (dict_get kwargs "signoff") (PyStr "pool-A")
                  then [pool_A] else [];
     lock_answer := fun _ => locked_body;
     beat_of := fun _ => true;
     settings := [("INTERVAL", PyInt 5)] |}.

Definition sync_boot : SyncSt (list Thread) :=
  {| sync_world := []; sync_log := []; collection := [] |}.

(** An inventory with one datacenter and one cluster of three pools. *)
Definition sample_cluster : Cluster :=
  {| cluster_name := "Cluster-1";
     resourcePool :=
       [{| rp_name := "pool-B"; vm := [] |};
        {| rp_name := "pool-A";
           vm := [{| vm_name := "compute-0"; vm_moid := "vm-11" |};
                  {| vm_name := "control-0"; vm_moid := "vm-12" |}] |};
        {| rp_name := "ci-pool"; vm := [] |}] |}.

Definition sample_content : Content :=
  [{| dc_name := "Datacenter-CP"; hostFolder := [sample_cluster] |}].

(** The order of [sorted] on strings. *)
Definition str_le (a b : string) : Prop := String.leb a b = true.

(** The query of the sync service for one pool. *)
Definition signoff_query (pool : string) : event :=
  GetLockableResources [("signoff", PyStr pool)].

(** * Properties *)

(** ** Strings and logs *)

Lemma issued_app {W : Type} (s s' : St W) (evs : list event) :
  log s' = (log s ++ evs)%list -> issued s s' = evs.
Proof.
  intros H. unfold issued. rewrite H.
  rewrite skipn_app, skipn_all, Nat.sub_diag. reflexivity.
Qed.

Lemma str_slice_to_length (n : nat) (s : string) :
  String.length (str_slice_to n s) = Nat.min n (String.length s).
Proof.
  revert n. induction s as [|c s IH]; intros [|n]; simpl; auto.
Qed.

Lemma str_slice_to_all (n : nat) (s : string) :
  String.length s <= n -> str_slice_to n s = s.
Proof.
  revert n. induction s as [|c s IH]; intros [|n] H; simpl in *;
    try reflexivity; try lia.
  f_equal. apply IH. lia.
Qed.

Lemma str_slice_to_prefix (n : nat) (s : string) :
  exists rest, s = str_slice_to n s ++ rest.
Proof.
  revert n. induction s as [|c s IH]; intros n.
  - exists EmptyString. reflexivity.
  - destruct n as [|n]; simpl.
    + exists (String c s). reflexivity.
    + destruct (IH n) as [rest Hrest]. exists rest. now rewrite <- Hrest.
Qed.

Lemma string_app_assoc (a b c : string) : (a ++ b) ++ c = a ++ (b ++ c).
Proof. induction a as [|x a IH]; simpl; [reflexivity | now rewrite IH]. Qed.

Lemma Contains_app_l (sub a b : string) : Contains sub a -> Contains sub (a ++ b).
Proof.
  intros (x & y & ->). exists x, (y ++ b).
  now rewrite !string_app_assoc.
Qed.

Lemma Contains_app_r (sub a b : string) : Contains sub b -> Contains sub (a ++ b).
Proof.
  intros (x & y & ->). exists (a ++ x), y.
  now rewrite !string_app_assoc.
Qed.

Lemma Contains_here (sub b : string) : Contains sub (sub ++ b).
Proof. exists EmptyString, b. reflexivity. Qed.

(** ** The dispatcher: [queue_beat_check] *)

Section Dispatcher.
Context {W : Type} (E : Env W).

Lemma orphan_msg_orphan : Contains "orphan" (orphan_msg E).
Proof.
  unfold orphan_msg. apply Contains_app_l.
  exists "This queue was an ", " queue! ". reflexivity.
Qed.

(** The calls of an attempt whose heartbeat test fails. *)
Lemma queue_beat_check_orphan (next_queue : Rqueue) (next_resource : pydict)
      (s : St W) (w1 : W) :
  queue_has_beat E (id next_queue) (QUEUE_BEAT_TIMEOUT E) (world s) = (Ok false, w1) ->
  issued s (snd (queue_beat_check E next_queue next_resource s))
  = [QueueHasBeat (id next_queue) (QUEUE_BEAT_TIMEOUT E);
     AbortQueue (id next_queue) (orphan_msg E)].
Proof.
  intros Hbeat. apply issued_app.
  unfold queue_beat_check, bind, call. simpl. rewrite Hbeat. simpl.
  destruct (abort_queue _ _ _ _) as [r w]. simpl.
  now rewrite <- app_assoc.
Qed.

(** The calls of an attempt up to the decision on [is_locked]. *)
Lemma queue_beat_check_locking (next_queue : Rqueue) (next_resource : pydict)
      (s : St W) (w1 w2 : W) (attempt_lock : Response) (d : pydict) :
  queue_has_beat E (id next_queue) (QUEUE_BEAT_TIMEOUT E) (world s) = (Ok true, w1) ->
  lock_resource (rlocker E) next_resource
    (dict_get (data next_queue) "signoff") (dict_get (data next_queue) "link") w1
  = (Ok attempt_lock, w2) ->
  json attempt_lock = Ok (PyDict d) ->
  issued s (snd (queue_beat_check E next_queue next_resource s))
  = [QueueHasBeat (id next_queue) (QUEUE_BEAT_TIMEOUT E);
     LockResource next_resource (dict_get (data next_queue) "signoff")
       (dict_get (data next_queue) "link");
     PrintObj (PyDict d);
     ChangeQueue (id next_queue)
       (if truthy (dict_get d "is_locked")
        then [("status", PyStr const.STATUS_FINISHED);
              ("final_resource", dict_get next_resource "name")]
        else [("status", PyStr const.STATUS_FAILED);
              ("description", PyStr (str_slice_to 2048 (text attempt_lock)))])].
Proof.
  intros Hbeat Hlock Hjson. apply issued_app.
  unfold queue_beat_check, bind, call, lift, emit. simpl.
  rewrite Hbeat. simpl. rewrite Hlock. simpl. rewrite Hjson. simpl.
  destruct (truthy (dict_get d "is_locked")); unfold bind, call; simpl;
    destruct (change_queue _ _ _ _) as [[r|e] w]; simpl;
    now rewrite <- !app_assoc.
Qed.
End Dispatcher.

(** C1.  When the heartbeat test of a matched pair passes and the
    answer of [lock_resource] has a true [is_locked], the attempt
    issues the heartbeat test, the lock request, and one call that
    changes a status: [change_queue] with status [FINISHED] and
    [final_resource] the name of the resource it was handed. *)
Theorem lock_acquired_finishes {W : Type} (E : Env W)
        (next_queue : Rqueue) (next_resource : pydict)
        (s : St W) (w1 w2 : W) (attempt_lock : Response) (d : pydict) :
  queue_has_beat E (id next_queue) (QUEUE_BEAT_TIMEOUT E) (world s) = (Ok true, w1) ->
  lock_resource (rlocker E) next_resource
    (dict_get (data next_queue) "signoff") (dict_get (data next_queue) "link") w1
  = (Ok attempt_lock, w2) ->
  json attempt_lock = Ok (PyDict d) ->
  truthy (dict_get d "is_locked") = true ->
  filter is_status_change
    (issued s (snd (queue_beat_check E next_queue next_resource s)))
  = [ChangeQueue (id next_queue)
       [("status", PyStr "FINISHED");
        ("final_resource", dict_get next_resource "name")]].
Proof.
  intros Hbeat Hlock Hjson Hlocked.
  rewrite (queue_beat_check_locking E next_queue next_resource s Hbeat Hlock Hjson).
  rewrite Hlocked. reflexivity.
Qed.

Lemma lock_acquired_finishes_witness :
  filter is_status_change
    (issued (boot [])
       (snd (queue_beat_check (sim (script locked_body true nobody)) E1 pool_A
               (boot []))))
  = [ChangeQueue (PyInt 1)
       [("status", PyStr "FINISHED"); ("final_resource", PyStr "pool-A")]].
Proof.
  apply (lock_acquired_finishes (sim (script locked_body true nobody)) E1 pool_A
           (boot []) (w1 := world (boot [])) (w2 := world (boot []))
           (attempt_lock := locked_body) (d := [("is_locked", PyBool true)]));
    reflexivity.
Defined.

(** C2.  When the heartbeat test of a dispatched entry fails, the
    attempt aborts the entry with a message that contains "orphan",
    and issues no lock request. *)
Theorem orphan_aborted_without_lock {W : Type} (E : Env W)
        (next_queue : Rqueue) (next_resource : pydict) (s : St W) (w1 : W) :
  queue_has_beat E (id next_queue) (QUEUE_BEAT_TIMEOUT E) (world s) = (Ok false, w1) ->
  let calls := issued s (snd (queue_beat_check E next_queue next_resource s)) in
  filter is_status_change calls = [AbortQueue (id next_queue) (orphan_msg E)]
  /\ Contains "orphan" (orphan_msg E)
  /\ filter is_lock_request calls = [].
Proof.
  intros Hbeat calls. subst calls.
  rewrite (queue_beat_check_orphan E next_queue next_resource s Hbeat).
  repeat split. apply orphan_msg_orphan.
Qed.

Lemma orphan_aborted_without_lock_witness :
  let E := sim (script locked_body false nobody) in
  let calls := issued (boot []) (snd (queue_beat_check E E1 pool_A (boot []))) in
  filter is_status_change calls = [AbortQueue (PyInt 1) (orphan_msg E)]
  /\ Contains "orphan" (orphan_msg E)
  /\ filter is_lock_request calls = [].
Proof.
  apply (orphan_aborted_without_lock (sim (script locked_body false nobody))
           E1 pool_A (boot []) (w1 := world (boot []))).
  reflexivity.
Defined.

(** The message of the orphan scenario with a window of 30 seconds. *)
Example orphan_msg_30 :
  orphan_msg (sim (script locked_body false nobody))
  = "This queue was an orphan queue! " ++ nl
      ++ "There was no associated client, because queue was not beating  in the last 30 seconds".
Proof. reflexivity. Qed.

(** C4 (amended).  When the heartbeat test passes and the answer of
    [lock_resource] has a false [is_locked], the attempt sets the entry
    to [FAILED], and the description is the first 2048 characters of
    the text of the whole response body. *)
Theorem lock_denied_fails {W : Type} (E : Env W)
        (next_queue : Rqueue) (next_resource : pydict)
        (s : St W) (w1 w2 : W) (attempt_lock : Response) (d : pydict) :
  queue_has_beat E (id next_queue) (QUEUE_BEAT_TIMEOUT E) (world s) = (Ok true, w1) ->
  lock_resource (rlocker E) next_resource
    (dict_get (data next_queue) "signoff") (dict_get (data next_queue) "link") w1
  = (Ok attempt_lock, w2) ->
  json attempt_lock = Ok (PyDict d) ->
  truthy (dict_get d "is_locked") = false ->
  filter is_status_change
    (issued s (snd (queue_beat_check E next_queue next_resource s)))
  = [ChangeQueue (id next_queue)
       [("status", PyStr "FAILED");
        ("description", PyStr (str_slice_to 2048 (text attempt_lock)))]].
Proof.
  intros Hbeat Hlock Hjson Hdenied.
  rewrite (queue_beat_check_locking E next_queue next_resource s Hbeat Hlock Hjson).
  rewrite Hdenied. reflexivity.
Qed.

Lemma lock_denied_fails_witness :
  filter is_status_change
    (issued (boot [])
       (snd (queue_beat_check (sim (script busy_body true nobody)) E1 pool_A
               (boot []))))
  = [ChangeQueue (PyInt 1)
       [("status", PyStr "FAILED");
        ("description", PyStr (str_slice_to 2048 (text busy_body)))]].
Proof.
  apply (lock_denied_fails (sim (script busy_body true nobody)) E1 pool_A
           (boot []) (w1 := world (boot [])) (w2 := world (boot []))
           (attempt_lock := busy_body)
           (d := [("is_locked", PyBool false); ("detail", PyStr "busy")]));
    reflexivity.
Defined.

(** C4 as stated fails: the registry denies the lock with the detail
    "busy"; the description stored on the entry is the text of the
    response body, which is the whole JSON document, not the detail. *)
Lemma lock_denied_description_is_not_detail :
  let E := sim (script busy_body true nobody) in
  let calls := issued (boot []) (snd (queue_beat_check E E1 pool_A (boot []))) in
  json busy_body = Ok (PyDict [("is_locked", PyBool false); ("detail", PyStr "busy")])
  /\ filter is_status_change calls
     = [ChangeQueue (PyInt 1)
          [("status", PyStr "FAILED"); ("description", PyStr busy_text)]]
  /\ filter is_status_change calls
     <> [ChangeQueue (PyInt 1)
           [("status", PyStr "FAILED"); ("description", PyStr "busy")]].
Proof.
  repeat split. intros H. vm_compute in H. discriminate H.
Qed.

(** C8.  On a denied lock the description stored with status [FAILED]
    is the text of the denial cut to exactly 2048 characters when it is
    longer, and the text itself when it has 2048 characters or fewer. *)
Theorem denial_text_truncated {W : Type} (E : Env W)
        (next_queue : Rqueue) (next_resource : pydict)
        (s : St W) (w1 w2 : W) (attempt_lock : Response) (d : pydict) :
  queue_has_beat E (id next_queue) (QUEUE_BEAT_TIMEOUT E) (world s) = (Ok true, w1) ->
  lock_resource (rlocker E) next_resource
    (dict_get (data next_queue) "signoff") (dict_get (data next_queue) "link") w1
  = (Ok attempt_lock, w2) ->
  json attempt_lock = Ok (PyDict d) ->
  truthy (dict_get d "is_locked") = false ->
  exists description : string,
    filter is_status_change
      (issued s (snd (queue_beat_check E next_queue next_resource s)))
    = [ChangeQueue (id next_queue)
         [("status", PyStr "FAILED"); ("description", PyStr description)]]
    /\ (2048 < String.length (text attempt_lock) ->
        String.length description = 2048
        /\ exists rest, text attempt_lock = description ++ rest)
    /\ (String.length (text attempt_lock) <= 2048 ->
        description = text attempt_lock).
Proof.
  intros Hbeat Hlock Hjson Hdenied.
  exists (str_slice_to 2048 (text attempt_lock)).
  rewrite (queue_beat_check_locking E next_queue next_resource s Hbeat Hlock Hjson).
  rewrite Hdenied. split; [reflexivity|]. split.
  - intros Hlong. split.
    + rewrite str_slice_to_length. apply Nat.min_l. lia.
    + apply str_slice_to_prefix.
  - apply str_slice_to_all.
Qed.

Lemma denial_text_truncated_witness :
  exists description : string,
    filter is_status_change
      (issued (boot [])
         (snd (queue_beat_check (sim (script long_body true nobody)) E1 pool_A
                 (boot []))))
    = [ChangeQueue (PyInt 1)
         [("status", PyStr "FAILED"); ("description", PyStr description)]]
    /\ (2048 < String.length (text long_body) ->
        String.length description = 2048
        /\ exists rest, text long_body = description ++ rest)
    /\ (String.length (text long_body) <= 2048 ->
        description = text long_body).
Proof.
  apply (denial_text_truncated (sim (script long_body true nobody)) E1 pool_A
           (boot []) (w1 := world (boot [])) (w2 := world (boot []))
           (attempt_lock := long_body)
           (d := [("is_locked", PyBool false);
                  ("detail", PyStr (repeat_str "x"%char 3000))]));
    reflexivity.
Defined.

(** The long denial has 3034 characters and is stored with 2048. *)
Example long_text_cut :
  String.length long_text = 3034
  /\ String.length (str_slice_to 2048 long_text) = 2048.
Proof. split; vm_compute; reflexivity. Qed.

(** ** Start-up promotion: [put_queues_on_pending] *)

Section Promotion.
Context {W : Type} (E : Env W).

Lemma bind_ok {A B : Type} (m : M (W := W) A) (k : A -> M B)
      (s s1 : St W) (a : A) :
  m s = (Ok a, s1) -> bind m k s = k a s1.
Proof. intros H. unfold bind. now rewrite H. Qed.

Lemma bind_raise {A B : Type} (m : M (W := W) A) (k : A -> M B)
      (s s1 : St W) (e : exn) :
  m s = (Raise e, s1) -> bind m k s = (Raise e, s1).
Proof. intros H. unfold bind. now rewrite H. Qed.

(** The entries before the offending one are handled first. *)
Lemma promote_app (confirmed rest : list pydict) (s s1 : St W) :
  promote E confirmed s = (Ok tt, s1) ->
  promote E (confirmed ++ rest) s = promote E rest s1.
Proof.
  revert s. induction confirmed as [|queue confirmed IH]; intros s H.
  - simpl in H. unfold ret in H. now inversion H.
  - simpl in *. unfold bind in *.
    destruct (call _ _ s) as [[resp|e] s2]; [|discriminate H].
    destruct (lift (json resp) s2) as [[body|e] s3]; [|discriminate H].
    destruct (lift (py_dict body) s3) as [[fields|e] s4]; [|discriminate H].
    destruct (negb _).
    + destruct (emit _ s4) as [[u|e] s5]; discriminate H.
    + now apply IH.
Qed.

(** The turn of the loop for an entry whose change is not confirmed. *)
Lemma promote_not_changed (queue : pydict) (rest : list pydict) (s : St W)
      (queue_response : Response) (w : W) (body : pyval)
      (fields : list (pyval * pyval)) :
  change_queue (rlocker E) (dict_get queue "id") [("status", PyStr "PENDING")]
    (world s) = (Ok queue_response, w) ->
  json queue_response = Ok body ->
  py_dict body = Ok fields ->
  eq_str (pairs_get fields "status") "PENDING" = false ->
  exists s2,
    promote E (queue :: rest) s = (Raise (SystemExit None), s2)
    /\ issued s s2
       = [ChangeQueue (dict_get queue "id") [("status", PyStr "PENDING")];
          Print (not_changed_msg E (dict_get queue "id"))].
Proof.
  intros Hchange Hjson Hdict Hstatus.
  simpl. unfold bind, call, lift, emit, raise. simpl.
  rewrite Hchange. simpl. rewrite Hjson. simpl. rewrite Hdict. simpl.
  unfold const.STATUS_PENDING. rewrite Hstatus. simpl.
  eexists. split; [reflexivity|].
  apply issued_app. simpl. now rewrite <- app_assoc.
Qed.

Lemma not_changed_msg_id (queue_id : pyval) :
  Contains (py_str E queue_id) (not_changed_msg E queue_id).
Proof.
  unfold not_changed_msg. apply Contains_app_r. apply Contains_here.
Qed.
End Promotion.

(** C3 (amended).  If during start-up promotion the change of an
    [INITIALIZING] entry to [PENDING] is not confirmed by the registry
    (the status of the response is not [PENDING]), the service prints a
    message that names the id of that entry and leaves through
    [sys.exit()] without a code: no later entry is promoted, nothing
    else of the beat runs, and the exit status of the process is 0. *)
Theorem unconfirmed_promotion_exits {W : Type} (E : Env W)
        (s s1 : St W) (confirmed rest : list pydict) (queue : pydict)
        (queue_response : Response) (w : W) (body : pyval)
        (fields : list (pyval * pyval)) :
  initializing_queues (self s) = (confirmed ++ queue :: rest)%list ->
  promote E confirmed s = (Ok tt, s1) ->
  change_queue (rlocker E) (dict_get queue "id") [("status", PyStr "PENDING")]
    (world s1) = (Ok queue_response, w) ->
  json queue_response = Ok body ->
  py_dict body = Ok fields ->
  eq_str (pairs_get fields "status") "PENDING" = false ->
  exists s2,
    put_queues_on_pending E s = (Raise (SystemExit None), s2)
    /\ run E s = (Raise (SystemExit None), s2)
    /\ issued s1 s2
       = [ChangeQueue (dict_get queue "id") [("status", PyStr "PENDING")];
          Print (not_changed_msg E (dict_get queue "id"))]
    /\ Contains (py_str E (dict_get queue "id"))
         (not_changed_msg E (dict_get queue "id"))
    /\ exit_status (SystemExit None) = 0%Z.
Proof.
  intros Hinit Hconfirmed Hchange Hjson Hdict Hstatus.
  destruct (promote_not_changed E queue rest s1 Hchange Hjson Hdict Hstatus)
    as (s2 & Hpromote & Hissued).
  assert (Hput : put_queues_on_pending E s = (Raise (SystemExit None), s2)).
  { unfold put_queues_on_pending.
    rewrite (@bind_ok W _ _ get_state _ s s s eq_refl).
    rewrite Hinit. apply bind_raise.
    now rewrite (promote_app E confirmed (queue :: rest) s Hconfirmed). }
  exists s2. repeat split; trivial.
  - unfold run. now apply bind_raise.
  - apply not_changed_msg_id.
Qed.

Lemma unconfirmed_promotion_exits_witness :
  let E := sim (script locked_body true is_two) in
  exists s2,
    put_queues_on_pending E (boot two_initializing) = (Raise (SystemExit None), s2)
    /\ run E (boot two_initializing) = (Raise (SystemExit None), s2)
    /\ issued (snd (promote E [[("id", PyInt 1); ("status", PyStr "INITIALIZING")]]
                      (boot two_initializing))) s2
       = [ChangeQueue (PyInt 2) [("status", PyStr "PENDING")];
          Print (not_changed_msg E (PyInt 2))]
    /\ Contains (py_str E (PyInt 2)) (not_changed_msg E (PyInt 2))
    /\ exit_status (SystemExit None) = 0%Z.
Proof.
  apply (unconfirmed_promotion_exits (sim (script locked_body true is_two))
           (boot two_initializing)
           [[("id", PyInt 1); ("status", PyStr "INITIALIZING")]]
           []
           [("id", PyInt 2); ("status", PyStr "INITIALIZING")]
           (queue_response := status_body "INITIALIZING")
           (w := world (boot two_initializing))
           (body := PyDict [("status", PyStr "INITIALIZING")])
           (fields := [(PyStr "status", PyStr "INITIALIZING")]));
    reflexivity.
Defined.

(** C3 as stated fails: the registry leaves entry 2 in [INITIALIZING];
    the beat ends with [SystemExit] without a code after the message
    for entry 2, and the exit status of that is 0, not a nonzero one. *)
Lemma unconfirmed_promotion_exit_status_zero :
  let E := sim (script locked_body true is_two) in
  fst (run E (boot two_initializing)) = Raise (SystemExit None)
  /\ log (snd (run E (boot two_initializing)))
     = [ChangeQueue (PyInt 1) [("status", PyStr "PENDING")];
        ChangeQueue (PyInt 2) [("status", PyStr "PENDING")];
        Print ("There was a problem changing queue with ID 2 to PENDING! " ++ nl
                 ++ "Unrecoverable error. Service Exiting...")]
  /\ exit_status (SystemExit None) = 0%Z
  /\ ~ (exists e, fst (run E (boot two_initializing)) = Raise e
                  /\ exit_status e <> 0%Z).
Proof.
  repeat split.
  intros (e & He & Hstatus). vm_compute in He.
  injection He as <-. apply Hstatus. reflexivity.
Qed.

(** ** The matcher: the loop of [run] over the groups *)

Lemma dispatches_app (a b : list event) :
  dispatches (a ++ b) = (dispatches a ++ dispatches b)%list.
Proof.
  induction a as [|ev a IH]; simpl; [reflexivity|].
  destruct ev; simpl; now rewrite ?IH.
Qed.

Section Matcher.
Context {W : Type} (E : Env W).

(** The query of a group: either the type is rejected and nothing
    happens, or exactly one query is sent to the registry. *)
Lemma free_resources_cases (group : Group) (s : St W) :
  (eq_str (group_type group) "label" = false
   /\ eq_str (group_type group) "name" = false
   /\ free_resources E group s = (Raise bad_type, s))
  \/ (exists kwargs,
        (eq_str (group_type group) "label" = true
         \/ eq_str (group_type group) "name" = true)
        /\ free_resources E group s
           = call (GetLockableResources kwargs)
                  (get_lockable_resources (rlocker E) kwargs) s).
Proof.
  unfold free_resources.
  destruct (eq_str (group_type group) "label") eqn:Hlabel.
  - right. eexists. split; [now left | reflexivity].
  - destruct (eq_str (group_type group) "name") eqn:Hname.
    + right. eexists. split; [now right | reflexivity].
    + left. repeat split.
Qed.

Lemma free_resources_state (group : Group) (s s1 : St W)
      (r : result (list pydict)) :
  free_resources E group s = (r, s1) ->
  Rqueue_grouped_queues s1 = Rqueue_grouped_queues s
  /\ exists calls, log s1 = (log s ++ calls)%list
                   /\ dispatches calls = []
                   /\ filter is_status_change calls = []
                   /\ List.length calls <= 1.
Proof.
  intros H.
  destruct (free_resources_cases group s) as [(_ & _ & Hbad) | (kwargs & _ & Hcall)].
  - rewrite Hbad in H. inversion H; subst. split; [reflexivity|].
    exists []. rewrite app_nil_r. repeat split. simpl. lia.
  - rewrite Hcall in H. unfold call in H. simpl in H.
    destruct (get_lockable_resources _ _ _) as [r' w]. inversion H; subst.
    split; [reflexivity|]. eexists. split; [reflexivity|].
    repeat split. simpl. lia.
Qed.

(** The thread of a pair: nothing when a thread of its name is
    alive, one start otherwise. *)
Lemma fire_alive (next_queue : Rqueue) (next_resource : pydict) (s : St W)
      (names : list string) (w : W) :
  threading_enumerate E (world s) = (names, w) ->
  existsb (String.eqb (thread_name E next_queue)) names = true ->
  fire E next_queue next_resource s = (Ok tt, with_world w s).
Proof.
  intros Hnames Halive. unfold fire, bind, ask. rewrite Hnames.
  cbn beta iota zeta. rewrite Halive. reflexivity.
Qed.

Lemma fire_fresh (next_queue : Rqueue) (next_resource : pydict) (s : St W)
      (names : list string) (w : W) :
  threading_enumerate E (world s) = (names, w) ->
  existsb (String.eqb (thread_name E next_queue)) names = false ->
  fire E next_queue next_resource s
  = (Ok tt,
     with_world (thread_start E (thread_name E next_queue) next_queue next_resource w)
       (record (ThreadStart (thread_name E next_queue) next_queue next_resource)
          (with_world w s))).
Proof.
  intros Hnames Hfresh. unfold fire, bind, ask. rewrite Hnames.
  cbn beta iota zeta. rewrite Hfresh. reflexivity.
Qed.

Lemma fire_log (next_queue : Rqueue) (next_resource : pydict) (s : St W) :
  fst (fire E next_queue next_resource s) = Ok tt
  /\ (log (snd (fire E next_queue next_resource s)) = log s
      \/ log (snd (fire E next_queue next_resource s))
         = (log s ++ [ThreadStart (thread_name E next_queue)
                        next_queue next_resource])%list).
Proof.
  destruct (threading_enumerate E (world s)) as [names w] eqn:Hnames.
  destruct (existsb (String.eqb (thread_name E next_queue)) names) eqn:Halive.
  - rewrite (fire_alive _ _ _ Hnames Halive). split; [reflexivity | now left].
  - rewrite (fire_fresh _ _ _ Hnames Halive). split; [reflexivity | now right].
Qed.
End Matcher.

Section Beat.
Context {W : Type} (E : Env W).

(** One turn of the loop, by the outcome of the query. *)
Lemma run_group_cases (i : nat) (group : Group) (s : St W) :
  match free_resources E group s with
  | (Raise e, s1) => run_group E i group s = (Raise e, s1)
  | (Ok [], s1) => run_group E i group s = (Ok tt, s1)
  | (Ok (next_resource :: _), s1) =>
      match queues group with
      | [] => run_group E i group s = (Raise IndexError, s1)
      | next_queue :: _ =>
          run_group E i group s = fire E next_queue next_resource (popped i s1)
      end
  end.
Proof.
  unfold run_group, bind.
  destruct (free_resources E group s) as [[[|next_resource rs]|e] s1];
    try reflexivity.
  destruct (queues group); reflexivity.
Qed.

Lemma run_group_log (i : nat) (group : Group) (s : St W) :
  exists calls,
    log (snd (run_group E i group s)) = (log s ++ calls)%list
    /\ (dispatches calls = []
        \/ exists next_queue qs next_resource rs s1,
             queues group = next_queue :: qs
             /\ free_resources E group s = (Ok (next_resource :: rs), s1)
             /\ dispatches calls = [(next_queue, next_resource)]).
Proof.
  pose proof (run_group_cases i group s) as Hcases.
  destruct (free_resources E group s) as [r s1] eqn:Hfree.
  destruct (free_resources_state E group s Hfree)
    as (_ & calls & Hlog & Hnone & _ & _).
  destruct r as [[|next_resource rs]|e];
    try (rewrite Hcases; exists calls; split; [exact Hlog | now left]).
  destruct (queues group) as [|next_queue qs] eqn:Hqueues;
    try (rewrite Hcases; exists calls; split; [exact Hlog | now left]).
  rewrite Hcases.
  destruct (fire_log E next_queue next_resource (popped i s1)) as [_ [Hsame | Hnew]].
  - exists calls. split; [now rewrite Hsame | now left].
  - eexists. split.
    + rewrite Hnew. simpl. rewrite Hlog, <- app_assoc. reflexivity.
    + right. exists next_queue, qs, next_resource, rs, s1.
      repeat split. rewrite dispatches_app, Hnone. reflexivity.
Qed.

Lemma run_groups_log (groups : list Group) (i : nat) (s : St W) :
  exists calls,
    log (snd (run_groups E i groups s)) = (log s ++ calls)%list
    /\ List.length (dispatches calls) <= List.length groups.
Proof.
  revert i s. induction groups as [|group rest IH]; intros i s.
  - exists []. simpl. rewrite app_nil_r. split; [reflexivity | lia].
  - destruct (run_group_log i group s) as (calls & Hlog & Hpair).
    assert (Hone : List.length (dispatches calls) <= 1).
    { destruct Hpair as [-> | (q & qs & r & rs & s1 & _ & _ & ->)]; simpl; lia. }
    simpl. unfold bind.
    destruct (run_group E i group s) as [[u|e] s1]; simpl in Hlog.
    + destruct (IH (S i) s1) as (calls' & Hlog' & Hbound).
      exists (calls ++ calls')%list. split.
      * now rewrite Hlog', Hlog, app_assoc.
      * rewrite dispatches_app, length_app. simpl. lia.
    + exists calls. split; [exact Hlog | simpl; lia].
Qed.

End Beat.

Lemma existsb_eqb_In (name : string) (names : list string) :
  In name names -> existsb (String.eqb name) names = true.
Proof.
  intros H. apply existsb_exists. exists name. split; [exact H|].
  apply String.eqb_refl.
Qed.

(** The pair of a group with free resources whose first entry has no
    thread alive is handed over. *)
Lemma run_group_fresh {W : Type} (E : Env W) (i : nat) (group : Group) (s s1 : St W)
      (next_queue : Rqueue) (qs : list Rqueue)
      (next_resource : pydict) (rs : list pydict)
      (names : list string) (w : W) :
  queues group = next_queue :: qs ->
  free_resources E group s = (Ok (next_resource :: rs), s1) ->
  threading_enumerate E (world s1) = (names, w) ->
  ~ In (thread_name E next_queue) names ->
  dispatches (issued s (snd (run_group E i group s)))
  = [(next_queue, next_resource)].
Proof.
  intros Hqueues Hfree Hnames Hfresh.
  pose proof (run_group_cases E i group s) as Hcases.
  rewrite Hfree, Hqueues in Hcases. rewrite Hcases.
  destruct (free_resources_state E group s Hfree)
    as (_ & calls & Hlog & Hnone & _ & _).
  assert (Hnot : existsb (String.eqb (thread_name E next_queue)) names = false).
  { destruct (existsb _ names) eqn:Halive; [|reflexivity].
    exfalso. apply Hfresh. apply existsb_exists in Halive.
    destruct Halive as (name & Hin & Heq).
    apply String.eqb_eq in Heq. now subst name. }
  rewrite (fire_fresh E next_queue next_resource (popped i s1)
             (names := names) (w := w) Hnames Hnot).
  rewrite (issued_app s _ (calls ++ [ThreadStart (thread_name E next_queue)
                                       next_queue next_resource])).
  - rewrite dispatches_app, Hnone. reflexivity.
  - simpl. now rewrite Hlog, <- app_assoc.
Qed.

(** C5.  A turn of the loop hands at most one (entry, resource) pair to
    a dispatch thread, and a pair it hands over is the first member of
    the group with the first free resource the registry returned; that
    pair is handed over whenever the registry returns a free resource
    and no thread named after the first member is alive, however many
    members and free resources there are.  The loop over the groups
    hands over no more pairs than there are groups. *)
Theorem one_pair_per_group {W : Type} (E : Env W)
        (i : nat) (group : Group) (groups : list Group) (s : St W) :
  (List.length (dispatches (issued s (snd (run_group E i group s)))) <= 1
   /\ (forall next_queue next_resource,
         In (next_queue, next_resource)
            (dispatches (issued s (snd (run_group E i group s)))) ->
         exists qs rs s1,
           queues group = next_queue :: qs
           /\ free_resources E group s = (Ok (next_resource :: rs), s1))
   /\ (forall next_queue qs next_resource rs s1 names w,
         queues group = next_queue :: qs ->
         free_resources E group s = (Ok (next_resource :: rs), s1) ->
         threading_enumerate E (world s1) = (names, w) ->
         ~ In (thread_name E next_queue) names ->
         dispatches (issued s (snd (run_group E i group s)))
         = [(next_queue, next_resource)]))
  /\ List.length (dispatches (issued s (snd (run_groups E i groups s))))
     <= List.length groups.
Proof.
  split.
  - destruct (run_group_log E i group s) as (calls & Hlog & Hpair).
    rewrite (issued_app _ _ _ Hlog). split; [|split].
    + destruct Hpair as [-> | (q & qs & r & rs & s1 & _ & _ & ->)]; simpl; lia.
    + destruct Hpair as [-> | (q & qs & r & rs & s1 & Hq & Hfree & ->)].
      * intros ? ? [].
      * intros next_queue next_resource [Heq | []]. inversion Heq; subst.
        now exists qs, rs, s1.
    + intros next_queue qs next_resource rs s1 names w Hq Hfree Hnames Hfresh.
      rewrite <- (issued_app _ _ _ Hlog).
      exact (run_group_fresh E i group s Hq Hfree Hnames Hfresh).
  - destruct (run_groups_log E groups i s) as (calls & Hlog & Hbound).
    now rewrite (issued_app _ _ _ Hlog).
Qed.

(** Two entries wait for [pool-A], which is free: only the first is
    paired, with the first resource, and it leaves the group. *)
Example group_A_dispatch :
  let E := sim (script locked_body true nobody) in
  let s' := snd (run_groups E 0 [group_A] (grouped_state [group_A])) in
  log s' = [GetLockableResources [("free_only", PyBool true); ("name", PyStr "pool-A")];
            ThreadStart "Thread-1" E1 pool_A]
  /\ map queues (Rqueue_grouped_queues s') = [[E3]]
  /\ map t_name (world s') = ["MainThread"; "Thread-1"].
Proof. repeat split. Qed.




(** The same beat from the entries the registry lists as [PENDING],
    grouped by [group_all]. *)
Example run_bad_group_type :
  let E := sim (script_with [listed E1; listed E2] locked_body true nobody) in
  fst (run E (boot [])) = Raise bad_type
  /\ dispatches (log (snd (run E (boot [])))) = [(E1, pool_A)].
Proof. split; vm_compute; reflexivity. Qed.

(** C7.  A group for which the registry returns no free resource is
    skipped: its turn ends normally after the query, no entry leaves
    the group, no thread is started, no status is changed, and the loop
    goes on with the remaining groups. *)
Theorem empty_resources_skip {W : Type} (E : Env W)
        (i : nat) (group : Group) (rest : list Group) (s s1 : St W) :
  free_resources E group s = (Ok [], s1) ->
  run_group E i group s = (Ok tt, s1)
  /\ Rqueue_grouped_queues s1 = Rqueue_grouped_queues s
  /\ dispatches (issued s s1) = []
  /\ filter is_status_change (issued s s1) = []
  /\ List.length (issued s s1) <= 1
  /\ run_groups E i (group :: rest) s = run_groups E (S i) rest s1.
Proof.
  intros Hfree.
  pose proof (run_group_cases E i group s) as Hcases. rewrite Hfree in Hcases.
  destruct (free_resources_state E group s Hfree)
    as (Hsame & calls & Hlog & Hnone & Hstatus & Hone).
  rewrite (issued_app _ _ _ Hlog).
  repeat split; trivial.
  simpl. unfold bind. now rewrite Hcases.
Qed.

Lemma empty_resources_skip_witness :
  let E := sim (script locked_body true nobody) in
  let s0 := grouped_state [group_B; group_A] in
  let s1 := snd (free_resources E group_B s0) in
  run_group E 0 group_B s0 = (Ok tt, s1)
  /\ Rqueue_grouped_queues s1 = Rqueue_grouped_queues s0
  /\ dispatches (issued s0 s1) = []
  /\ filter is_status_change (issued s0 s1) = []
  /\ List.length (issued s0 s1) <= 1
  /\ run_groups E 0 (group_B :: [group_A]) s0 = run_groups E 1 [group_A] s1.
Proof.
  apply (empty_resources_skip (sim (script locked_body true nobody)) 0
           group_B [group_A] (grouped_state [group_B; group_A])).
  reflexivity.
Defined.

(** Nothing is free for [pool-B]: its group is left as it is and the
    group of [pool-A] is served in the same beat. *)
Example group_B_skipped :
  let E := sim (script locked_body true nobody) in
  let s' := snd (run_groups E 0 [group_B; group_A]
                   (grouped_state [group_B; group_A])) in
  fst (run_groups E 0 [group_B; group_A] (grouped_state [group_B; group_A])) = Ok tt
  /\ map queues (Rqueue_grouped_queues s') = [[E4]; [E3]]
  /\ dispatches (log s') = [(E1, pool_A)].
Proof. repeat split. Qed.

Lemma alter_nth_nth_error {A : Type} (f : A -> A) (l : list A) (i : nat) (x : A) :
  nth_error l i = Some x -> nth_error (alter_nth f i l) i = Some (f x).
Proof.
  revert i. induction l as [|y l IH]; intros [|i] H; simpl in *;
    try discriminate H.
  - now inversion H.
  - now apply IH.
Qed.

(** C10.  When a thread named after the first entry of a group is
    alive, the turn of that group starts no thread and issues nothing
    after its query: the first free resource is handed to no entry, the
    first entry has left the group all the same, the entries behind it
    are not tried, and the loop goes on with the next group. *)
Theorem alive_thread_discards_pair {W : Type} (E : Env W)
        (i : nat) (group : Group) (rest : list Group) (s s1 : St W)
        (next_queue : Rqueue) (qs : list Rqueue)
        (next_resource : pydict) (rs : list pydict)
        (names : list string) (w : W) :
  nth_error (Rqueue_grouped_queues s) i = Some group ->
  queues group = next_queue :: qs ->
  free_resources E group s = (Ok (next_resource :: rs), s1) ->
  threading_enumerate E (world s1) = (names, w) ->
  In (thread_name E next_queue) names ->
  let s' := with_world w (popped i s1) in
  run_group E i group s = (Ok tt, s')
  /\ log s' = log s1
  /\ dispatches (issued s s') = []
  /\ nth_error (Rqueue_grouped_queues s') i
     = Some {| group_type := group_type group; group_name := group_name group;
               queues := qs |}
  /\ run_groups E i (group :: rest) s = run_groups E (S i) rest s'.
Proof.
  intros Hnth Hqueues Hfree Hnames Halive s'.
  pose proof (run_group_cases E i group s) as Hcases.
  rewrite Hfree, Hqueues in Hcases.
  assert (Hturn : run_group E i group s = (Ok tt, s')).
  { rewrite Hcases.
    apply (fire_alive E next_queue next_resource (popped i s1) (names := names)).
    - exact Hnames.
    - now apply existsb_eqb_In. }
  destruct (free_resources_state E group s Hfree)
    as (Hsame & calls & Hlog & Hnone & _ & _).
  repeat split.
  - exact Hturn.
  - rewrite (issued_app s s' calls Hlog). exact Hnone.
  - subst s'. simpl. rewrite Hsame.
    rewrite (alter_nth_nth_error _ _ _ Hnth).
    unfold without_first. now rewrite Hqueues.
  - simpl. unfold bind. now rewrite Hturn.
Qed.

Lemma alive_thread_discards_pair_witness :
  let E := sim (script locked_body true nobody) in
  let s0 := busy_state [group_A; group_B] in
  let s1 := snd (free_resources E group_A s0) in
  let s' := with_world (world s1) (popped 0 s1) in
  run_group E 0 group_A s0 = (Ok tt, s')
  /\ log s' = log s1
  /\ dispatches (issued s0 s') = []
  /\ nth_error (Rqueue_grouped_queues s') 0
     = Some {| group_type := group_type group_A; group_name := group_name group_A;
               queues := [E3] |}
  /\ run_groups E 0 (group_A :: [group_B]) s0 = run_groups E 1 [group_B] s'.
Proof.
  apply (@alive_thread_discards_pair _ (sim (script locked_body true nobody)) 0
           group_A [group_B] (busy_state [group_A; group_B])
           (snd (free_resources (sim (script locked_body true nobody)) group_A
                   (busy_state [group_A; group_B])))
           E1 [E3] pool_A [] ["MainThread"; "Thread-1"]
           (world (busy_state [group_A; group_B])));
    try reflexivity.
  simpl. right. left. reflexivity.
Defined.

(** The thread of entry 1 is alive: entry 1 leaves its group, entry 3
    stays behind without an attempt, and [pool-A] goes to nobody. *)
Example group_A_deduplicated :
  let E := sim (script locked_body true nobody) in
  let s' := snd (run_groups E 0 [group_A] (busy_state [group_A])) in
  log s' = [GetLockableResources [("free_only", PyBool true); ("name", PyStr "pool-A")]]
  /\ map queues (Rqueue_grouped_queues s') = [[E3]]
  /\ map t_name (world s') = ["MainThread"; "Thread-1"].
Proof. repeat split. Qed.

(** ** Dispatch threads: one attempt per entry *)

Lemma in_flight_app (a b : list Thread) :
  in_flight (a ++ b) = (in_flight a ++ in_flight b)%list.
Proof.
  induction a as [|t a IH]; simpl; [reflexivity|].
  destruct (t_target t) as [[q r]|]; simpl; now rewrite IH.
Qed.

Lemma quiet_in_flight (w : list Thread) : quiet w -> in_flight w = [].
Proof.
  induction w as [|t w IH]; intros H; simpl; [reflexivity|].
  rewrite (H t (or_introl eq_refl)). apply IH.
  intros t' Ht'. apply H. now right.
Qed.

Section Threads.
Variable sc : Script.

Lemma fire_world (q : Rqueue) (r : pydict) (s : St (list Thread)) :
  (existsb (String.eqb (thread_name (sim sc) q)) (map t_name (world s)) = true
   /\ fire (sim sc) q r s = (Ok tt, s))
  \/ (existsb (String.eqb (thread_name (sim sc) q)) (map t_name (world s)) = false
      /\ world (snd (fire (sim sc) q r s))
         = (world s ++ [{| t_name := thread_name (sim sc) q;
                           t_target := Some (q, r) |}])%list
      /\ log (snd (fire (sim sc) q r s))
         = (log s ++ [ThreadStart (thread_name (sim sc) q) q r])%list).
Proof.
  destruct (existsb (String.eqb (thread_name (sim sc) q)) (map t_name (world s)))
    eqn:Halive.
  - left. split; [reflexivity|].
    rewrite (fire_alive (sim sc) q r s (names := map t_name (world s))
               (w := world s) eq_refl Halive).
    destruct s; reflexivity.
  - right. split; [reflexivity|].
    rewrite (fire_fresh (sim sc) q r s (names := map t_name (world s))
               (w := world s) eq_refl Halive).
    split; reflexivity.
Qed.
End Threads.

(** An attempt whose calls to the heartbeat store and to the registry
    return, the lock request with a JSON object, changes the status of
    its entry exactly once. *)
Lemma queue_beat_check_one_change {W : Type} (E : Env W)
      (next_queue : Rqueue) (next_resource : pydict) (s : St W)
      (has_beat : bool) (w1 : W) :
  queue_has_beat E (id next_queue) (QUEUE_BEAT_TIMEOUT E) (world s)
  = (Ok has_beat, w1) ->
  (has_beat = true ->
   exists attempt_lock w2 d,
     lock_resource (rlocker E) next_resource
       (dict_get (data next_queue) "signoff") (dict_get (data next_queue) "link") w1
     = (Ok attempt_lock, w2)
     /\ json attempt_lock = Ok (PyDict d)) ->
  List.length
    (filter is_status_change
       (issued s (snd (queue_beat_check E next_queue next_resource s)))) = 1.
Proof.
  intros Hbeat Hlock. destruct has_beat.
  - destruct (Hlock eq_refl) as (attempt_lock & w2 & d & Hcall & Hjson).
    now rewrite (queue_beat_check_locking E next_queue next_resource s
                   Hbeat Hcall Hjson).
  - now rewrite (queue_beat_check_orphan E next_queue next_resource s Hbeat).
Qed.

(** Entry 1 is selected in two beats in a row while its first attempt
    is in flight: one thread is started, for the first pair. *)
Example entry_1_selected_twice :
  let E := sim (script locked_body true nobody) in
  let s1 := snd (fire E E1 pool_A (boot [])) in
  let s2 := snd (fire E E1 pool_A s1) in
  s2 = s1
  /\ log s2 = [ThreadStart "Thread-1" E1 pool_A]
  /\ in_flight (world s2) = [E1].
Proof. repeat split. Qed.


(** * Further properties of the service *)

(** ** The dispatcher in every environment *)

Section DispatcherCases.
Context {W : Type} (E : Env W).

(** The calls of an attempt, by the way it ends. *)
Lemma queue_beat_check_calls (next_queue : Rqueue) (next_resource : pydict)
      (s : St W) :
  let beat := QueueHasBeat (id next_queue) (QUEUE_BEAT_TIMEOUT E) in
  let lock := LockResource next_resource (dict_get (data next_queue) "signoff")
                (dict_get (data next_queue) "link") in
  let calls := issued s (snd (queue_beat_check E next_queue next_resource s)) in
  calls = [beat]
  \/ calls = [beat; AbortQueue (id next_queue) (orphan_msg E)]
  \/ calls = [beat; lock]
  \/ (exists shown, calls = [beat; lock; PrintObj shown])
  \/ (exists shown kwargs,
        calls = [beat; lock; PrintObj shown; ChangeQueue (id next_queue) kwargs]).
Proof.
  intros beat lock calls. subst calls.
  destruct (queue_has_beat E (id next_queue) (QUEUE_BEAT_TIMEOUT E) (world s))
    as [[[|]|e] w1] eqn:Hbeat.
  - destruct (lock_resource (rlocker E) next_resource
                (dict_get (data next_queue) "signoff")
                (dict_get (data next_queue) "link") w1)
      as [[attempt_lock|e] w2] eqn:Hlock.
    + destruct (json attempt_lock) as [[| | | | |d]|e] eqn:Hjson.
      6: { right. right. right. right. eexists. eexists.
           apply (queue_beat_check_locking E next_queue next_resource s
                    Hbeat Hlock Hjson). }
      1-5: right; right; right; left; eexists; apply issued_app;
        unfold queue_beat_check, bind, call, lift, emit; simpl;
        rewrite Hbeat; simpl; rewrite Hlock; simpl; rewrite Hjson; simpl;
        rewrite <- !app_assoc; reflexivity.
      right. right. left. apply issued_app.
      unfold queue_beat_check, bind, call, lift, emit. simpl.
      rewrite Hbeat. simpl. rewrite Hlock. simpl. rewrite Hjson. simpl.
      now rewrite <- !app_assoc.
    + right. right. left. apply issued_app.
      unfold queue_beat_check, bind, call. simpl.
      rewrite Hbeat. simpl. rewrite Hlock. simpl.
      now rewrite <- !app_assoc.
  - right. left.
    apply (queue_beat_check_orphan E next_queue next_resource s Hbeat).
  - left. apply issued_app.
    unfold queue_beat_check, bind, call. simpl. now rewrite Hbeat.
Qed.
End DispatcherCases.

(** X1.  Whatever the heartbeat store and the registry answer or
    raise, an attempt issues at most one call that changes a status,
    and such a call is for the entry of the attempt: [abort_queue] or
    [change_queue] with its id. *)
Theorem attempt_changes_only_its_entry {W : Type} (E : Env W)
        (next_queue : Rqueue) (next_resource : pydict) (s : St W) :
  let calls := issued s (snd (queue_beat_check E next_queue next_resource s)) in
  List.length (filter is_status_change calls) <= 1
  /\ forall ev, In ev calls -> is_status_change ev = true ->
       ev = AbortQueue (id next_queue) (orphan_msg E)
       \/ exists kwargs, ev = ChangeQueue (id next_queue) kwargs.
Proof.
  intros calls. subst calls.
  destruct (queue_beat_check_calls E next_queue next_resource s)
    as [-> | [-> | [-> | [(shown & ->) | (shown & kwargs & ->)]]]];
    (split; [simpl; lia|]); intros ev Hin Hchange; simpl in Hin;
    repeat (destruct Hin as [<- | Hin]; try discriminate Hchange);
    try contradiction.
  - now left.
  - right. now exists kwargs.
Qed.

(** X2.  The heartbeat test is the first call of an attempt, at most
    one lock is requested, and a lock is requested only after the
    heartbeat test has returned true. *)
Theorem lock_only_after_heartbeat {W : Type} (E : Env W)
        (next_queue : Rqueue) (next_resource : pydict) (s : St W) :
  let calls := issued s (snd (queue_beat_check E next_queue next_resource s)) in
  hd_error calls = Some (QueueHasBeat (id next_queue) (QUEUE_BEAT_TIMEOUT E))
  /\ List.length (filter is_lock_request calls) <= 1
  /\ (filter is_lock_request calls <> [] ->
      exists w1,
        queue_has_beat E (id next_queue) (QUEUE_BEAT_TIMEOUT E) (world s)
        = (Ok true, w1)).
Proof.
  intros calls. subst calls.
  pose proof (queue_beat_check_calls E next_queue next_resource s) as Hcalls.
  split; [|split].
  - destruct Hcalls as [-> | [-> | [-> | [(shown & ->) | (shown & kwargs & ->)]]]];
      reflexivity.
  - destruct Hcalls as [-> | [-> | [-> | [(shown & ->) | (shown & kwargs & ->)]]]];
      simpl; lia.
  - intros Hlock.
    destruct (queue_has_beat E (id next_queue) (QUEUE_BEAT_TIMEOUT E) (world s))
      as [[[|]|e] w1] eqn:Hbeat.
    + now exists w1.
    + exfalso. apply Hlock.
      now rewrite (queue_beat_check_orphan E next_queue next_resource s Hbeat).
    + exfalso. apply Hlock.
      assert (Hone : issued s (snd (queue_beat_check E next_queue next_resource s))
                     = [QueueHasBeat (id next_queue) (QUEUE_BEAT_TIMEOUT E)]).
      { apply issued_app. unfold queue_beat_check, bind, call. simpl.
        now rewrite Hbeat. }
      now rewrite Hone.
Qed.

(** X3.  When the answer to the lock request cannot be decoded as JSON
    the attempt ends with the exception of the decoder: nothing is
    printed and no status is changed, so the entry stays as it was
    although the lock was requested. *)
Theorem undecodable_lock_answer {W : Type} (E : Env W)
        (next_queue : Rqueue) (next_resource : pydict)
        (s : St W) (w1 w2 : W) (attempt_lock : Response) (e : exn) :
  queue_has_beat E (id next_queue) (QUEUE_BEAT_TIMEOUT E) (world s) = (Ok true, w1) ->
  lock_resource (rlocker E) next_resource
    (dict_get (data next_queue) "signoff") (dict_get (data next_queue) "link") w1
  = (Ok attempt_lock, w2) ->
  json attempt_lock = Raise e ->
  fst (queue_beat_check E next_queue next_resource s) = Raise e
  /\ issued s (snd (queue_beat_check E next_queue next_resource s))
     = [QueueHasBeat (id next_queue) (QUEUE_BEAT_TIMEOUT E);
        LockResource next_resource (dict_get (data next_queue) "signoff")
          (dict_get (data next_queue) "link")]
  /\ world (snd (queue_beat_check E next_queue next_resource s)) = w2.
Proof.
  intros Hbeat Hlock Hjson.
  unfold queue_beat_check, bind, call, lift, emit. simpl.
  rewrite Hbeat. simpl. rewrite Hlock. simpl. rewrite Hjson. simpl.
  repeat split. apply issued_app. simpl. now rewrite <- !app_assoc.
Qed.

Lemma undecodable_lock_answer_witness :
  let E := sim (script html_body true nobody) in
  fst (queue_beat_check E E1 pool_A (boot [])) = Raise JSONDecodeError
  /\ issued (boot []) (snd (queue_beat_check E E1 pool_A (boot [])))
     = [QueueHasBeat (PyInt 1) (QUEUE_BEAT_TIMEOUT E);
        LockResource pool_A (PyStr "alice") (PyStr "http://ci/1")]
  /\ world (snd (queue_beat_check E E1 pool_A (boot []))) = world (boot []).
Proof.
  apply (@undecodable_lock_answer _ (sim (script html_body true nobody)) E1 pool_A
           (boot []) (world (boot [])) (world (boot [])) html_body JSONDecodeError);
    reflexivity.
Defined.

(** X4.  When the answer to the lock request is a JSON document that is
    not an object, the attempt prints it and ends with
    [AttributeError]; no status is changed. *)
Theorem non_object_lock_answer {W : Type} (E : Env W)
        (next_queue : Rqueue) (next_resource : pydict)
        (s : St W) (w1 w2 : W) (attempt_lock : Response) (shown : pyval) :
  queue_has_beat E (id next_queue) (QUEUE_BEAT_TIMEOUT E) (world s) = (Ok true, w1) ->
  lock_resource (rlocker E) next_resource
    (dict_get (data next_queue) "signoff") (dict_get (data next_queue) "link") w1
  = (Ok attempt_lock, w2) ->
  json attempt_lock = Ok shown ->
  (forall d, shown <> PyDict d) ->
  fst (queue_beat_check E next_queue next_resource s) = Raise AttributeError
  /\ issued s (snd (queue_beat_check E next_queue next_resource s))
     = [QueueHasBeat (id next_queue) (QUEUE_BEAT_TIMEOUT E);
        LockResource next_resource (dict_get (data next_queue) "signoff")
          (dict_get (data next_queue) "link");
        PrintObj shown].
Proof.
  intros Hbeat Hlock Hjson Hshape.
  unfold queue_beat_check, bind, call, lift, emit. simpl.
  rewrite Hbeat. simpl. rewrite Hlock. simpl. rewrite Hjson. simpl.
  destruct shown as [| | | | |d]; try (now destruct (Hshape d));
    simpl; (split; [reflexivity|]); apply issued_app; simpl;
    now rewrite <- !app_assoc.
Qed.

Lemma non_object_lock_answer_witness :
  let E := sim (script list_body true nobody) in
  fst (queue_beat_check E E1 pool_A (boot [])) = Raise AttributeError
  /\ issued (boot []) (snd (queue_beat_check E E1 pool_A (boot [])))
     = [QueueHasBeat (PyInt 1) (QUEUE_BEAT_TIMEOUT E);
        LockResource pool_A (PyStr "alice") (PyStr "http://ci/1");
        PrintObj (PyList [])].
Proof.
  apply (@non_object_lock_answer _ (sim (script list_body true nobody)) E1 pool_A
           (boot []) (world (boot [])) (world (boot [])) list_body (PyList []));
    try reflexivity.
  intros d H. discriminate H.
Defined.

Lemma dict_get_absent (d : pydict) (k : string) :
  ~ In k (map fst d) -> dict_get d k = PyNone.
Proof.
  induction d as [|[k' v] d IH]; intros H; simpl in *; [reflexivity|].
  destruct (String.eqb k' k) eqn:Heq.
  - apply String.eqb_eq in Heq. exfalso. apply H. now left.
  - apply IH. intros Hin. apply H. now right.
Qed.

(** X5.  An answer to the lock request that is an object without the
    key [is_locked] counts as a denial: the entry is set to [FAILED]
    with the first 2048 characters of the body as description. *)
Theorem missing_is_locked_fails {W : Type} (E : Env W)
        (next_queue : Rqueue) (next_resource : pydict)
        (s : St W) (w1 w2 : W) (attempt_lock : Response) (d : pydict) :
  queue_has_beat E (id next_queue) (QUEUE_BEAT_TIMEOUT E) (world s) = (Ok true, w1) ->
  lock_resource (rlocker E) next_resource
    (dict_get (data next_queue) "signoff") (dict_get (data next_queue) "link") w1
  = (Ok attempt_lock, w2) ->
  json attempt_lock = Ok (PyDict d) ->
  ~ In "is_locked" (map fst d) ->
  filter is_status_change
    (issued s (snd (queue_beat_check E next_queue next_resource s)))
  = [ChangeQueue (id next_queue)
       [("status", PyStr "FAILED");
        ("description", PyStr (str_slice_to 2048 (text attempt_lock)))]].
Proof.
  intros Hbeat Hlock Hjson Habsent.
  rewrite (queue_beat_check_locking E next_queue next_resource s Hbeat Hlock Hjson).
  rewrite (dict_get_absent d "is_locked" Habsent). reflexivity.
Qed.

Lemma missing_is_locked_fails_witness :
  filter is_status_change
    (issued (boot [])
       (snd (queue_beat_check (sim (script unlabelled_body true nobody)) E1 pool_A
               (boot []))))
  = [ChangeQueue (PyInt 1)
       [("status", PyStr "FAILED");
        ("description", PyStr (str_slice_to 2048 (text unlabelled_body)))]].
Proof.
  apply (@missing_is_locked_fails _ (sim (script unlabelled_body true nobody))
           E1 pool_A (boot []) (world (boot [])) (world (boot []))
           unlabelled_body [("detail", PyStr "busy")]); try reflexivity.
  simpl. intros [H | []]. discriminate H.
Defined.


(** ** Start-up promotion in every environment *)

Section PromotionCases.
Context {W : Type} (E : Env W).

(** The calls of the promotion loop: one [change_queue] per entry, in
    the order of the list, up to the entry at which the loop stops. *)
Lemma promote_log (initializing : list pydict) (s : St W) :
  exists calls n,
    log (snd (promote E initializing s)) = (log s ++ calls)%list
    /\ filter is_status_change calls = map promote_call (firstn n initializing)
    /\ (fst (promote E initializing s) = Ok tt ->
        filter is_status_change calls = map promote_call initializing)
    /\ Forall (beat_call initializing) calls.
Proof.
  revert s. induction initializing as [|queue rest IH]; intros s.
  - exists [], 0. simpl. rewrite app_nil_r. repeat split. constructor.
  - assert (Hhead : beat_call (queue :: rest) (promote_call queue)).
    { exists queue. split; [now left | reflexivity]. }
    simpl. unfold bind, call, lift, emit, raise. simpl.
    destruct (change_queue _ _ _ _) as [[resp|e] w]; simpl.
    2: { exists [promote_call queue], 1. repeat split; try discriminate.
         now constructor. }
    destruct (json resp) as [body|e]; simpl.
    2: { exists [promote_call queue], 1. repeat split; try discriminate.
         now constructor. }
    destruct (py_dict body) as [fields|e]; simpl.
    2: { exists [promote_call queue], 1. repeat split; try discriminate.
         now constructor. }
    destruct (negb _); simpl.
    + exists [promote_call queue; Print (not_changed_msg E (dict_get queue "id"))], 1.
      repeat split; try discriminate.
      * now rewrite <- app_assoc.
      * constructor; [exact Hhead|]. constructor; [exact I | constructor].
    + match goal with |- context [promote E rest ?s1] =>
        destruct (IH s1) as (calls & n & Hlog & Hprefix & Hall & Hcalls) end.
      exists (promote_call queue :: calls), (S n). repeat split.
      * rewrite Hlog. simpl. now rewrite <- app_assoc.
      * simpl. now rewrite Hprefix.
      * intros Hok. simpl. now rewrite (Hall Hok).
      * constructor; [exact Hhead|].
        apply Forall_impl with (P := beat_call rest); [|exact Hcalls].
        intros [] Hev; simpl in *; trivial.
        destruct Hev as (q & Hin & Heq). exists q. split; [now right | exact Heq].
Qed.
End PromotionCases.

Section PromotionReport.
Context {W : Type} (E : Env W).

Lemma put_queues_on_pending_report (s s1 : St W) :
  promote E (initializing_queues (self s)) s = (Ok tt, s1) ->
  put_queues_on_pending E s
  = (let s2 := record (GetQueues "PENDING")
                 (record (Print (promoted_line (initializing_queues (self s)))) s1) in
     match get_queues (rlocker E) "PENDING" (world s1) with
     | (Ok pending, w) =>
         (Ok tt,
          record (Print ("Total Queues that are PENDING: "
                           ++ py_str E (PyInt (Z.of_nat (List.length pending)))))
            (with_world w s2))
     | (Raise e, w) => (Raise e, with_world w s2)
     end).
Proof.
  intros Hpromote. unfold put_queues_on_pending.
  rewrite (@bind_ok W _ _ get_state _ s s s eq_refl).
  rewrite (bind_ok _ _ _ Hpromote).
  unfold bind, emit, call, promoted_line, const.STATUS_PENDING. simpl.
  destruct (get_queues (rlocker E) "PENDING" (world s1)) as [[pending|e] w];
    reflexivity.
Qed.

Lemma put_queues_on_pending_log (s : St W) :
  exists calls n,
    log (snd (put_queues_on_pending E s)) = (log s ++ calls)%list
    /\ filter is_status_change calls
       = map promote_call (firstn n (initializing_queues (self s)))
    /\ (fst (put_queues_on_pending E s) = Ok tt ->
        filter is_status_change calls
        = map promote_call (initializing_queues (self s)))
    /\ Forall (beat_call (initializing_queues (self s))) calls.
Proof.
  destruct (promote_log E (initializing_queues (self s)) s)
    as (calls & n & Hlog & Hprefix & Hall & Hcalls).
  destruct (promote E (initializing_queues (self s)) s) as [[[]|e] s1] eqn:Hpromote.
  - rewrite (put_queues_on_pending_report s Hpromote). simpl in Hlog.
    assert (Hfilter : forall tail,
               filter is_status_change tail = [] ->
               filter is_status_change (calls ++ tail)
               = map promote_call (initializing_queues (self s))).
    { intros tail Htail. rewrite filter_app, Htail, app_nil_r. now apply Hall. }
    destruct (get_queues (rlocker E) "PENDING" (world s1)) as [[pending|e] w]; simpl.
    + eexists (calls ++ [_; _; _])%list, (List.length (initializing_queues (self s))).
      rewrite firstn_all. split; [|split; [|split]].
      * rewrite Hlog, <- !app_assoc. reflexivity.
      * now apply Hfilter.
      * intros _. now apply Hfilter.
      * apply Forall_app. split; [exact Hcalls|]. repeat constructor.
    + eexists (calls ++ [_; _])%list, (List.length (initializing_queues (self s))).
      rewrite firstn_all. split; [|split; [|split]].
      * rewrite Hlog, <- !app_assoc. reflexivity.
      * now apply Hfilter.
      * intros _. now apply Hfilter.
      * apply Forall_app. split; [exact Hcalls|]. repeat constructor.
  - exists calls, n. unfold put_queues_on_pending.
    rewrite (@bind_ok W _ _ get_state _ s s s eq_refl).
    rewrite (bind_raise _ _ _ Hpromote). simpl in *.
    repeat split; trivial.
Qed.
End PromotionReport.

Lemma pairs_find_absent (d : pydict) (k : string) :
  ~ In k (map fst d) -> pairs_find (map str_key d) k = None.
Proof.
  induction d as [|[k' v] d IH]; intros H; simpl in *; [reflexivity|].
  rewrite IH by (intros Hin; apply H; now right).
  destruct (String.eqb k' k) eqn:Heq; [|reflexivity].
  apply String.eqb_eq in Heq. exfalso. apply H. now left.
Qed.

(** [dict(d).get(k)] is [d.get(k)] for a decoded object [d]. *)
Lemma pairs_get_str_key (d : pydict) (k : string) :
  NoDup (map fst d) -> pairs_get (map str_key d) k = dict_get d k.
Proof.
  unfold pairs_get. induction d as [|[k' v] d IH]; intros Hnodup; simpl;
    [reflexivity|].
  inversion Hnodup as [|x l Hnotin Hrest]; subst.
  destruct (String.eqb k' k) eqn:Heq.
  - apply String.eqb_eq in Heq. subst k'.
    now rewrite (pairs_find_absent d k Hnotin).
  - specialize (IH Hrest). destruct (pairs_find (map str_key d) k); exact IH.
Qed.

(** X6.  [put_queues_on_pending] issues its [change_queue] calls for
    the entries of [self.initializing_queues] in the order of the list,
    one per entry and with status [PENDING], up to the entry at which
    it stops; when it returns, every entry has had its call.  No other
    call that changes a status is issued. *)
Theorem promotion_in_order {W : Type} (E : Env W) (s : St W) :
  let calls := issued s (snd (put_queues_on_pending E s)) in
  (exists n,
     filter is_status_change calls
     = map promote_call (firstn n (initializing_queues (self s))))
  /\ (fst (put_queues_on_pending E s) = Ok tt ->
      filter is_status_change calls
      = map promote_call (initializing_queues (self s))).
Proof.
  intros calls. subst calls.
  destruct (put_queues_on_pending_log E s) as (calls & n & Hlog & Hprefix & Hall & _).
  rewrite (issued_app _ _ _ Hlog). split; [now exists n | exact Hall].
Qed.

(** X7.  An entry whose change is answered by a JSON object with the
    status [PENDING] is confirmed: nothing is printed for it and the
    loop goes on with the next entry. *)
Theorem confirmed_promotion_continues {W : Type} (E : Env W)
        (queue : pydict) (rest : list pydict) (s : St W)
        (queue_response : Response) (w : W) (d : pydict) :
  change_queue (rlocker E) (dict_get queue "id") [("status", PyStr "PENDING")]
    (world s) = (Ok queue_response, w) ->
  json queue_response = Ok (PyDict d) ->
  NoDup (map fst d) ->
  dict_get d "status" = PyStr "PENDING" ->
  promote E (queue :: rest) s
  = promote E rest (with_world w (record (promote_call queue) s)).
Proof.
  intros Hchange Hjson Hnodup Hstatus.
  simpl. unfold bind, call, lift. simpl.
  rewrite Hchange. simpl. rewrite Hjson. simpl.
  rewrite (pairs_get_str_key d "status" Hnodup), Hstatus. reflexivity.
Qed.

Lemma confirmed_promotion_continues_witness :
  let E := sim (script locked_body true is_two) in
  promote E two_initializing (boot two_initializing)
  = promote E [[("id", PyInt 2); ("status", PyStr "INITIALIZING")]]
      (with_world (world (boot two_initializing))
         (record (promote_call [("id", PyInt 1); ("status", PyStr "INITIALIZING")])
            (boot two_initializing))).
Proof.
  apply (@confirmed_promotion_continues _ (sim (script locked_body true is_two))
           [("id", PyInt 1); ("status", PyStr "INITIALIZING")]
           [[("id", PyInt 2); ("status", PyStr "INITIALIZING")]]
           (boot two_initializing) (status_body "PENDING")
           (world (boot two_initializing)) [("status", PyStr "PENDING")]);
    try reflexivity.
  repeat constructor. intros [].
Defined.

(** X8.  When the answer to a promotion cannot be decoded as JSON, the
    promotion, [put_queues_on_pending] and [run] end with the exception
    of the decoder right after that call: no message is printed, the
    process is not left through [sys.exit()], and no later entry is
    promoted. *)
Theorem undecodable_promotion_answer {W : Type} (E : Env W)
        (s s1 : St W) (confirmed rest : list pydict) (queue : pydict)
        (queue_response : Response) (w : W) (e : exn) :
  initializing_queues (self s) = (confirmed ++ queue :: rest)%list ->
  promote E confirmed s = (Ok tt, s1) ->
  change_queue (rlocker E) (dict_get queue "id") [("status", PyStr "PENDING")]
    (world s1) = (Ok queue_response, w) ->
  json queue_response = Raise e ->
  let s2 := with_world w (record (promote_call queue) s1) in
  put_queues_on_pending E s = (Raise e, s2)
  /\ run E s = (Raise e, s2)
  /\ issued s1 s2 = [promote_call queue].
Proof.
  intros Hinit Hconfirmed Hchange Hjson s2.
  assert (Hpromote : promote E (queue :: rest) s1 = (Raise e, s2)).
  { simpl. unfold bind, call, lift. simpl.
    rewrite Hchange. simpl. now rewrite Hjson. }
  assert (Hput : put_queues_on_pending E s = (Raise e, s2)).
  { unfold put_queues_on_pending.
    rewrite (@bind_ok W _ _ get_state _ s s s eq_refl).
    rewrite Hinit. apply bind_raise.
    now rewrite (promote_app E confirmed (queue :: rest) s Hconfirmed). }
  repeat split; trivial.
  - unfold run. now apply bind_raise.
  - now apply issued_app.
Qed.

Lemma undecodable_promotion_answer_witness :
  let sc := {| queues_of := fun _ => [];
               change_answer := fun _ _ => html_body;
               free_of := fun _ => [];
               lock_answer := fun _ => locked_body;
               beat_of := fun _ => true;
               settings := [] |} in
  let s2 := with_world (world (boot two_initializing))
              (record (promote_call [("id", PyInt 1); ("status", PyStr "INITIALIZING")])
                 (boot two_initializing)) in
  put_queues_on_pending (sim sc) (boot two_initializing) = (Raise JSONDecodeError, s2)
  /\ run (sim sc) (boot two_initializing) = (Raise JSONDecodeError, s2)
  /\ issued (boot two_initializing) s2
     = [promote_call [("id", PyInt 1); ("status", PyStr "INITIALIZING")]].
Proof.
  apply (@undecodable_promotion_answer _
           (sim {| queues_of := fun _ => [];
                   change_answer := fun _ _ => html_body;
                   free_of := fun _ => [];
                   lock_answer := fun _ => locked_body;
                   beat_of := fun _ => true;
                   settings := [] |})
           (boot two_initializing) (boot two_initializing) []
           [[("id", PyInt 2); ("status", PyStr "INITIALIZING")]]
           [("id", PyInt 1); ("status", PyStr "INITIALIZING")]
           html_body (world (boot two_initializing)) JSONDecodeError);
    reflexivity.
Defined.

(** X9.  When every entry was promoted, [put_queues_on_pending] prints
    its report - "No queues to Initialize." for an empty list, the
    success line otherwise -, fetches the [PENDING] entries once and
    prints how many the registry returned. *)
Theorem promotion_report {W : Type} (E : Env W) (s s1 : St W)
        (pending : list pydict) (w : W) :
  promote E (initializing_queues (self s)) s = (Ok tt, s1) ->
  get_queues (rlocker E) "PENDING" (world s1) = (Ok pending, w) ->
  fst (put_queues_on_pending E s) = Ok tt
  /\ issued s1 (snd (put_queues_on_pending E s))
     = [Print (if Nat.ltb 0 (List.length (initializing_queues (self s)))
               then "Service put all queues on PENDING successfully! " ++ nl
               else "No queues to Initialize. " ++ nl);
        GetQueues "PENDING";
        Print ("Total Queues that are PENDING: "
                 ++ py_str E (PyInt (Z.of_nat (List.length pending))))]
  /\ world (snd (put_queues_on_pending E s)) = w.
Proof.
  intros Hpromote Hpending.
  rewrite (put_queues_on_pending_report E s Hpromote). simpl.
  rewrite Hpending. simpl. repeat split.
  apply issued_app. simpl. now rewrite <- !app_assoc.
Qed.

Lemma promotion_report_witness :
  let E := sim (script_with [listed E1; listed E3] locked_body true nobody) in
  fst (put_queues_on_pending E (boot [])) = Ok tt
  /\ issued (boot []) (snd (put_queues_on_pending E (boot [])))
     = [Print ("No queues to Initialize. " ++ nl);
        GetQueues "PENDING";
        Print ("Total Queues that are PENDING: "
                 ++ py_str E (PyInt (Z.of_nat (List.length [listed E1; listed E3]))))]
  /\ world (snd (put_queues_on_pending E (boot []))) = world (boot []).
Proof.
  apply (@promotion_report _
           (sim (script_with [listed E1; listed E3] locked_body true nobody))
           (boot []) (boot []) [listed E1; listed E3] (world (boot [])));
    reflexivity.
Defined.

(** A start with two entries that the registry confirms. *)
Example promotion_of_two :
  let E := sim (script_with [listed E1] locked_body true nobody) in
  log (snd (put_queues_on_pending E (boot two_initializing)))
  = [ChangeQueue (PyInt 1) [("status", PyStr "PENDING")];
     ChangeQueue (PyInt 2) [("status", PyStr "PENDING")];
     Print ("Service put all queues on PENDING successfully! " ++ nl);
     GetQueues "PENDING";
     Print "Total Queues that are PENDING: 1"].
Proof. reflexivity. Qed.


(** ** The beat as a whole *)

Section Keeping.
Context {W : Type}.
Variable Q : event -> Prop.

Lemma keeps_refl (s : St W) : keeps Q s s.
Proof.
  split; [|reflexivity]. exists []. rewrite app_nil_r. split; [reflexivity | constructor].
Qed.

Lemma keeps_trans (s1 s2 s3 : St W) :
  keeps Q s1 s2 -> keeps Q s2 s3 -> keeps Q s1 s3.
Proof.
  intros [(c1 & Hlog1 & Hall1) Hself1] [(c2 & Hlog2 & Hall2) Hself2]. split.
  - exists (c1 ++ c2)%list. split.
    + now rewrite Hlog2, Hlog1, app_assoc.
    + apply Forall_app. now split.
  - now rewrite Hself2.
Qed.

Lemma keeps_silent (s s' : St W) :
  log s' = log s ->
  initializing_queues (self s') = initializing_queues (self s) ->
  keeps Q s s'.
Proof.
  intros Hlog Hself. split; [|exact Hself].
  exists []. rewrite app_nil_r. split; [exact Hlog | constructor].
Qed.

Lemma preserves_bind {A B : Type} (m : M (W := W) A) (k : A -> M B) :
  preserves (keeps Q) m ->
  (forall a, preserves (keeps Q) (k a)) ->
  preserves (keeps Q) (bind m k).
Proof.
  intros Hm Hk s. unfold bind. specialize (Hm s).
  destruct (m s) as [[a|e] s1]; simpl in *; [|exact Hm].
  apply keeps_trans with (s2 := s1); [exact Hm | apply Hk].
Qed.

Lemma preserves_silent {A : Type} (m : M (W := W) A) :
  (forall s, log (snd (m s)) = log s
             /\ initializing_queues (self (snd (m s)))
                = initializing_queues (self s)) ->
  preserves (keeps Q) m.
Proof. intros H s. destruct (H s). now apply keeps_silent. Qed.

Lemma preserves_call {A : Type} (ev : event) (f : W -> result A * W) :
  Q ev -> preserves (keeps Q) (call ev f).
Proof.
  intros Hev s. unfold call. simpl.
  destruct (f (world s)) as [r w]. simpl. split; [|reflexivity].
  exists [ev]. split; [reflexivity | now constructor].
Qed.

Lemma preserves_emit (ev : event) :
  Q ev -> preserves (keeps Q) (emit (W := W) ev).
Proof.
  intros Hev s. split; [|reflexivity].
  exists [ev]. split; [reflexivity | now constructor].
Qed.

Lemma preserves_ask {A : Type} (f : W -> A * W) : preserves (keeps Q) (ask f).
Proof.
  apply preserves_silent. intros s. unfold ask.
  destruct (f (world s)) as [a w]. now split.
Qed.

Lemma preserves_lift {A : Type} (r : result A) :
  preserves (keeps Q) (lift (W := W) r).
Proof. apply preserves_silent. intros s. now split. Qed.
End Keeping.

Lemma keeps_weaken {W : Type} (Q Q' : event -> Prop) (s s' : St W) :
  (forall ev, Q ev -> Q' ev) -> keeps Q s s' -> keeps Q' s s'.
Proof.
  intros Himpl [(calls & Hlog & Hall) Hself]. split; [|exact Hself].
  exists calls. split; [exact Hlog|]. now apply Forall_impl with (P := Q).
Qed.

Section BeatCalls.
Context {W : Type} (E : Env W).

Lemma beat_call_incl (l l' : list pydict) (ev : event) :
  incl l l' -> beat_call l ev -> beat_call l' ev.
Proof.
  intros Hincl. destruct ev; simpl; trivial.
  intros (queue & Hin & Heq). exists queue. split; [now apply Hincl | exact Heq].
Qed.

Lemma promote_keeps (l initializing : list pydict) :
  incl initializing l -> preserves (keeps (beat_call l)) (promote E initializing).
Proof.
  induction initializing as [|queue rest IH]; intros Hincl.
  - intros s. apply keeps_refl.
  - simpl. apply preserves_bind.
    + apply preserves_call. exists queue.
      split; [apply Hincl; now left | reflexivity].
    + intros resp. apply preserves_bind; [apply preserves_lift|].
      intros body. apply preserves_bind; [apply preserves_lift|].
      intros fields. destruct (negb _).
      * apply preserves_bind; [now apply preserves_emit|].
        intros _ s. apply keeps_refl.
      * apply IH. intros x Hx. apply Hincl. now right.
Qed.

Lemma put_queues_on_pending_keeps (s : St W) :
  keeps (beat_call (initializing_queues (self s))) s
    (snd (put_queues_on_pending E s)).
Proof.
  unfold put_queues_on_pending.
  rewrite (@bind_ok W _ _ get_state _ s s s eq_refl).
  apply preserves_bind.
  - apply promote_keeps. apply incl_refl.
  - intros _. apply preserves_bind; [now apply preserves_emit|].
    intros _. apply preserves_bind; [now apply preserves_call|].
    intros pending. now apply preserves_emit.
Qed.

(** Building the entries sends nothing and leaves the world, the
    instance and the groups alone. *)
Lemma instantiate_state (pending : list pydict) (s : St W) :
  let s' := snd (instantiate E pending s) in
  world s' = world s /\ log s' = log s /\ self s' = self s
  /\ Rqueue_grouped_queues s' = Rqueue_grouped_queues s.
Proof.
  revert s. induction pending as [|queue rest IH]; intros s; simpl.
  - repeat split.
  - unfold bind, get_state, lift. simpl.
    destruct (Rqueue_init E _ _ _ _) as [all|e]; simpl; [|repeat split].
    destruct (IH (with_all all s)) as (Hworld & Hlog & Hself & Hgroups).
    simpl in *. now rewrite Hworld, Hlog, Hself, Hgroups.
Qed.

Lemma fire_keeps (l : list pydict) (q : Rqueue) (r : pydict) :
  preserves (keeps (beat_call l)) (fire E q r).
Proof.
  unfold fire. apply preserves_bind; [apply preserves_ask|].
  intros names. destruct (negb _).
  - now apply preserves_call.
  - intros s. apply keeps_refl.
Qed.

Lemma run_group_keeps (l : list pydict) (i : nat) (group : Group) :
  preserves (keeps (beat_call l)) (run_group E i group).
Proof.
  unfold run_group. apply preserves_bind.
  - unfold free_resources.
    destruct (eq_str (group_type group) "label");
      [now apply preserves_call|].
    destruct (eq_str (group_type group) "name");
      [now apply preserves_call|].
    intros s. apply keeps_refl.
  - intros [|next_resource rs]; [intros s; apply keeps_refl|].
    destruct (queues group) as [|next_queue qs]; [intros s; apply keeps_refl|].
    apply preserves_bind; [|intros _; apply fire_keeps].
    apply preserves_silent. intros s. now split.
Qed.

Lemma run_groups_keeps (l : list pydict) (groups : list Group) (i : nat) :
  preserves (keeps (beat_call l)) (run_groups E i groups).
Proof.
  revert i. induction groups as [|group rest IH]; intros i.
  - intros s. apply keeps_refl.
  - simpl. apply preserves_bind; [apply run_group_keeps|].
    intros _. apply IH.
Qed.

Lemma run_keeps (s : St W) :
  keeps (beat_call (initializing_queues (self s))) s (snd (run E s)).
Proof.
  pose proof (put_queues_on_pending_keeps s) as Hput.
  unfold run, bind at 1.
  destruct (put_queues_on_pending E s) as [[[]|e] s1]; simpl in *; [|exact Hput].
  apply keeps_trans with (s2 := s1); [exact Hput|].
  generalize (initializing_queues (self s)). intros l.
  revert s1 Hput. intros s1 _. revert s1.
  change (preserves (keeps (beat_call l))
            (bind (call (GetQueues const.STATUS_PENDING)
                     (get_queues (rlocker E) const.STATUS_PENDING))
               (fun pending =>
                  bind (fun s0 : St W =>
                          (Ok tt,
                           with_self {| initializing_queues := initializing_queues (self s0);
                                        pending_queues := Some pending |} s0))
                    (fun _ =>
                       bind (instantiate_pending_queue_objects E)
                         (fun _ =>
                            bind get_state
                              (fun s0 =>
                                 bind (lift (Rqueue_group_all E (Rqueue_all s0)
                                               (Rqueue_grouped_queues s0)))
                                   (fun grouped =>
                                      bind (fun s' : St W => (Ok tt, with_grouped grouped s'))
                                        (fun _ =>
                                           bind (emit (PPrint grouped))
                                             (fun _ => run_groups E 0 grouped))))))))).
  apply preserves_bind; [now apply preserves_call|].
  intros pending. apply preserves_bind; [apply preserves_silent; now split|].
  intros _. apply preserves_bind.
  { apply preserves_silent. intros s0. unfold instantiate_pending_queue_objects.
    rewrite (@bind_ok W _ _ get_state _ s0 s0 s0 eq_refl).
    destruct (pending_queues (self s0)) as [pq|]; [|now split].
    destruct (instantiate_state pq s0) as (_ & Hlog & Hself & _).
    split; [exact Hlog | now rewrite Hself]. }
  intros _. apply preserves_bind; [apply preserves_silent; now split|].
  intros s0. apply preserves_bind; [apply preserves_lift|].
  intros grouped. apply preserves_bind; [apply preserves_silent; now split|].
  intros _. apply preserves_bind; [now apply preserves_emit|].
  intros _. apply run_groups_keeps.
Qed.
End BeatCalls.

(** X10.  The beat thread itself never tests a heartbeat, never
    requests a lock and never aborts an entry: among the calls of [run]
    the only ones that change a status are promotions to [PENDING] of
    entries of [self.initializing_queues]. *)
Theorem beat_thread_only_promotes {W : Type} (E : Env W) (s : St W) :
  Forall (fun ev =>
            is_lock_request ev = false
            /\ (forall queue_id window, ev <> QueueHasBeat queue_id window)
            /\ (is_status_change ev = true ->
                exists queue,
                  In queue (initializing_queues (self s))
                  /\ ev = ChangeQueue (dict_get queue "id")
                            [("status", PyStr "PENDING")]))
         (issued s (snd (run E s))).
Proof.
  destruct (run_keeps E s) as [(calls & Hlog & Hcalls) _].
  rewrite (issued_app _ _ _ Hlog).
  apply Forall_impl with (P := beat_call (initializing_queues (self s)));
    [|exact Hcalls].
  intros ev Hev. destruct ev; simpl in *; try contradiction;
    repeat split; try discriminate; trivial.
Qed.

(** X11.  [run] never refreshes [self.initializing_queues]: after a
    beat the list is the one the instance was built with, so the next
    [put_queues_on_pending] of the same instance, when it returns, has
    asked again for the promotion of every entry of that list. *)
Theorem run_keeps_initializing_queues {W : Type} (E : Env W) (s : St W) :
  let s1 := snd (run E s) in
  initializing_queues (self s1) = initializing_queues (self s)
  /\ (fst (put_queues_on_pending E s1) = Ok tt ->
      filter is_status_change (issued s1 (snd (put_queues_on_pending E s1)))
      = map promote_call (initializing_queues (self s))).
Proof.
  intros s1. destruct (run_keeps E s) as [_ Hself]. fold s1 in Hself.
  split; [exact Hself|]. intros Hok. rewrite <- Hself.
  destruct (put_queues_on_pending_log E s1) as (calls & n & Hlog & _ & Hall & _).
  rewrite (issued_app _ _ _ Hlog). now apply Hall.
Qed.

(** The registry lists entry 1 as [PENDING] and confirms every change:
    two beats of one instance promote the two start-up entries twice. *)
Example two_beats_promote_twice :
  let E := sim (script_with [listed E1] locked_body true nobody) in
  let s1 := snd (run E (boot two_initializing)) in
  filter is_status_change (issued s1 (snd (run E s1)))
  = [ChangeQueue (PyInt 1) [("status", PyStr "PENDING")];
     ChangeQueue (PyInt 2) [("status", PyStr "PENDING")]].
Proof. vm_compute. reflexivity. Qed.

(** ** The loop over the groups in every environment *)

Lemma group_query_is_query (group : Group) :
  is_resource_query (group_query group) = true.
Proof. unfold group_query. now destruct (eq_str (group_type group) "label"). Qed.

Lemma length_alter_nth {A : Type} (f : A -> A) (i : nat) (l : list A) :
  List.length (alter_nth f i l) = List.length l.
Proof.
  revert i. induction l as [|x l IH]; intros [|i]; simpl; auto.
Qed.

Lemma nth_error_alter_nth {A : Type} (f : A -> A) (i j : nat) (l : list A) :
  nth_error (alter_nth f i l) j
  = if Nat.eqb j i then option_map f (nth_error l j) else nth_error l j.
Proof.
  revert i j. induction l as [|x l IH]; intros [|i] [|j]; simpl; try reflexivity.
  - now destruct (Nat.eqb j i).
  - apply IH.
Qed.

Section LoopCases.
Context {W : Type} (E : Env W).

(** The query of a group by label or by name is [group_query]. *)
Lemma free_resources_query (group : Group) (s : St W) :
  free_resources E group s = (Raise bad_type, s)
  \/ exists r w,
       free_resources E group s
       = (r, with_world w (record (group_query group) s)).
Proof.
  unfold free_resources, group_query, call.
  destruct (eq_str (group_type group) "label").
  - right. simpl. destruct (get_lockable_resources _ _ _) as [r w]. now exists r, w.
  - destruct (eq_str (group_type group) "name").
    + right. simpl. destruct (get_lockable_resources _ _ _) as [r w]. now exists r, w.
    + now left.
Qed.

Lemma fire_groups (q : Rqueue) (r : pydict) (s : St W) :
  Rqueue_grouped_queues (snd (fire E q r s)) = Rqueue_grouped_queues s.
Proof.
  destruct (threading_enumerate E (world s)) as [names w] eqn:Hnames.
  destruct (existsb (String.eqb (thread_name E q)) names) eqn:Halive.
  - now rewrite (fire_alive E q r s Hnames Halive).
  - now rewrite (fire_fresh E q r s Hnames Halive).
Qed.

Lemma run_group_query (i : nat) (group : Group) (s : St W) :
  exists calls,
    log (snd (run_group E i group s)) = (log s ++ calls)%list
    /\ (filter is_resource_query calls = [group_query group]
        \/ (calls = [] /\ fst (run_group E i group s) = Raise bad_type)).
Proof.
  pose proof (run_group_cases E i group s) as Hcases.
  pose proof (group_query_is_query group) as Hquery.
  destruct (free_resources_query group s) as [Hbad | (r & w & Hfree)].
  - rewrite Hbad in Hcases. rewrite Hcases. exists []. simpl.
    rewrite app_nil_r. split; [reflexivity | now right].
  - rewrite Hfree in Hcases.
    destruct r as [[|next_resource rs]|e];
      try (rewrite Hcases; exists [group_query group]; simpl; rewrite Hquery;
           split; [reflexivity | now left]).
    destruct (queues group) as [|next_queue qs];
      try (rewrite Hcases; exists [group_query group]; simpl; rewrite Hquery;
           split; [reflexivity | now left]).
    rewrite Hcases.
    destruct (fire_log E next_queue next_resource
                (popped i (with_world w (record (group_query group) s))))
      as [_ [Hsame | Hnew]].
    + exists [group_query group]. rewrite Hsame. simpl. rewrite Hquery.
      split; [reflexivity | now left].
    + eexists [group_query group; _]. rewrite Hnew. simpl. rewrite Hquery.
      split; [now rewrite <- app_assoc | now left].
Qed.

Lemma run_groups_query (groups : list Group) (i : nat) (s : St W) :
  exists calls n,
    log (snd (run_groups E i groups s)) = (log s ++ calls)%list
    /\ filter is_resource_query calls = map group_query (firstn n groups)
    /\ (fst (run_groups E i groups s) = Ok tt ->
        filter is_resource_query calls = map group_query groups).
Proof.
  revert i s. induction groups as [|group rest IH]; intros i s.
  - exists [], 0. simpl. rewrite app_nil_r. repeat split.
  - destruct (run_group_query i group s) as (calls & Hlog & Hshape).
    simpl. unfold bind.
    destruct (run_group E i group s) as [[[]|e] s1]; simpl in *.
    + destruct Hshape as [Hone | [_ Habs]]; [|discriminate Habs].
      destruct (IH (S i) s1) as (calls' & n & Hlog' & Hprefix & Hall).
      exists (calls ++ calls')%list, (S n). repeat split.
      * now rewrite Hlog', Hlog, app_assoc.
      * rewrite filter_app, Hone, Hprefix. reflexivity.
      * intros Hok. rewrite filter_app, Hone, (Hall Hok). reflexivity.
    + destruct Hshape as [Hone | [-> _]].
      * exists calls, 1. repeat split; trivial. discriminate.
      * exists [], 0. repeat split; trivial. discriminate.
Qed.

(** A turn of the loop leaves the groups alone or removes the first
    entry of the group at its position. *)
Lemma run_group_groups (i : nat) (group : Group) (s : St W) :
  Rqueue_grouped_queues (snd (run_group E i group s)) = Rqueue_grouped_queues s
  \/ Rqueue_grouped_queues (snd (run_group E i group s))
     = alter_nth without_first i (Rqueue_grouped_queues s).
Proof.
  pose proof (run_group_cases E i group s) as Hcases.
  destruct (free_resources E group s) as [r s1] eqn:Hfree.
  destruct (free_resources_state E group s Hfree) as (Hsame & _).
  destruct r as [[|next_resource rs]|e];
    try (rewrite Hcases; left; exact Hsame).
  destruct (queues group) as [|next_queue qs];
    try (rewrite Hcases; left; exact Hsame).
  rewrite Hcases, fire_groups. right. simpl. now rewrite Hsame.
Qed.
End LoopCases.

Lemma served_refl (g : Group) : served g g.
Proof. repeat split. now left. Qed.

Lemma served_without_first (g : Group) : served g (without_first g).
Proof. repeat split. now right. Qed.

(** The groups of two states, position by position. *)
Lemma run_groups_groups {W : Type} (E : Env W) (groups : list Group)
      (i : nat) (s : St W) (j : nat) :
  (j < i ->
   nth_error (Rqueue_grouped_queues (snd (run_groups E i groups s))) j
   = nth_error (Rqueue_grouped_queues s) j)
  /\ match nth_error (Rqueue_grouped_queues s) j,
           nth_error (Rqueue_grouped_queues (snd (run_groups E i groups s))) j with
     | Some g, Some g' => served g g'
     | None, None => True
     | _, _ => False
     end.
Proof.
  revert i s. induction groups as [|group rest IH]; intros i s.
  - simpl. split; [reflexivity|].
    destruct (nth_error (Rqueue_grouped_queues s) j); [apply served_refl | exact I].
  - simpl. unfold bind.
    pose proof (run_group_groups E i group s) as Hturn.
    destruct (run_group E i group s) as [[[]|e] s1]; simpl in Hturn.
    + destruct (IH (S i) s1) as [Hbelow Hrel].
      destruct Hturn as [Hsame | Hpop].
      * rewrite Hsame in *. split; [intros Hlt; apply Hbelow; lia | exact Hrel].
      * rewrite Hpop, nth_error_alter_nth in *.
        destruct (Nat.eqb j i) eqn:Hji.
        -- apply Nat.eqb_eq in Hji. subst j. split; [lia|].
           rewrite Hbelow by lia.
           destruct (nth_error (Rqueue_grouped_queues s) i); simpl;
             [apply served_without_first | exact I].
        -- split; [intros Hlt; apply Hbelow; lia | exact Hrel].
    + simpl. destruct Hturn as [-> | ->].
      * split; [reflexivity|].
        destruct (nth_error (Rqueue_grouped_queues s) j);
          [apply served_refl | exact I].
      * rewrite nth_error_alter_nth.
        destruct (Nat.eqb j i) eqn:Hji.
        -- apply Nat.eqb_eq in Hji. subst j. split; [lia|].
           destruct (nth_error (Rqueue_grouped_queues s) i); simpl;
             [apply served_without_first | exact I].
        -- split; [reflexivity|].
           destruct (nth_error (Rqueue_grouped_queues s) j);
             [apply served_refl | exact I].
Qed.

(** X12.  A group for which the registry returns a free resource but
    which has no entry makes the loop end with [IndexError], raised by
    [pop(0)]: no thread is started, the groups are left as they are and
    the groups behind it are not served. *)
Theorem group_without_entries_raises {W : Type} (E : Env W)
        (i : nat) (group : Group) (rest : list Group) (s s1 : St W)
        (next_resource : pydict) (rs : list pydict) :
  queues group = [] ->
  free_resources E group s = (Ok (next_resource :: rs), s1) ->
  run_group E i group s = (Raise IndexError, s1)
  /\ run_groups E i (group :: rest) s = (Raise IndexError, s1)
  /\ dispatches (issued s s1) = []
  /\ Rqueue_grouped_queues s1 = Rqueue_grouped_queues s.
Proof.
  intros Hqueues Hfree.
  pose proof (run_group_cases E i group s) as Hcases.
  rewrite Hfree, Hqueues in Hcases.
  destruct (free_resources_state E group s Hfree)
    as (Hsame & calls & Hlog & Hnone & _ & _).
  repeat split; trivial.
  - simpl. unfold bind. now rewrite Hcases.
  - now rewrite (issued_app _ _ _ Hlog).
Qed.

Lemma group_without_entries_raises_witness :
  let E := sim (script locked_body true nobody) in
  let s0 := grouped_state [group_empty; group_B] in
  let s1 := snd (free_resources E group_empty s0) in
  run_group E 0 group_empty s0 = (Raise IndexError, s1)
  /\ run_groups E 0 (group_empty :: [group_B]) s0 = (Raise IndexError, s1)
  /\ dispatches (issued s0 s1) = []
  /\ Rqueue_grouped_queues s1 = Rqueue_grouped_queues s0.
Proof.
  apply (@group_without_entries_raises _ (sim (script locked_body true nobody)) 0
           group_empty [group_B] (grouped_state [group_empty; group_B])
           (snd (free_resources (sim (script locked_body true nobody)) group_empty
                   (grouped_state [group_empty; group_B])))
           pool_A []); reflexivity.
Defined.

(** X13.  The loop of [run] asks the registry for free resources once
    per group, in the order of the groups, by [label_matches] for a
    group by label and by [name] for a group by name, up to the group
    at which it stops; when it returns, every group was asked for. *)
Theorem loop_queries_in_order {W : Type} (E : Env W)
        (i : nat) (groups : list Group) (s : St W) :
  let calls := issued s (snd (run_groups E i groups s)) in
  (exists n,
     filter is_resource_query calls = map group_query (firstn n groups))
  /\ (fst (run_groups E i groups s) = Ok tt ->
      filter is_resource_query calls = map group_query groups).
Proof.
  intros calls. subst calls.
  destruct (run_groups_query E groups i s) as (calls & n & Hlog & Hprefix & Hall).
  rewrite (issued_app _ _ _ Hlog). split; [now exists n | exact Hall].
Qed.

(** X14.  The loop of [run] neither adds, removes nor reorders groups,
    and it takes at most one entry from each: after the loop every
    group has its type and name, and its entries are the ones it had or
    those without the first. *)
Theorem loop_takes_one_entry_per_group {W : Type} (E : Env W)
        (i : nat) (groups : list Group) (s : St W) :
  let before := Rqueue_grouped_queues s in
  let after := Rqueue_grouped_queues (snd (run_groups E i groups s)) in
  (forall j, nth_error before j = None <-> nth_error after j = None)
  /\ forall j g g',
       nth_error before j = Some g -> nth_error after j = Some g' ->
       group_type g' = group_type g
       /\ group_name g' = group_name g
       /\ (queues g' = queues g \/ queues g' = tl (queues g)).
Proof.
  intros before after. subst before after. split.
  - intros j. destruct (run_groups_groups E groups i s j) as [_ Hrel].
    destruct (nth_error (Rqueue_grouped_queues s) j),
      (nth_error (Rqueue_grouped_queues (snd (run_groups E i groups s))) j);
      try contradiction; split; trivial; discriminate.
  - intros j g g' Hbefore Hafter.
    destruct (run_groups_groups E groups i s j) as [_ Hrel].
    rewrite Hbefore, Hafter in Hrel. exact Hrel.
Qed.

(** ** The end of a beat: [__exit__] *)



(** A pause of ten thousand million seconds cannot be converted:
    [time.sleep] raises and nothing is cleared. *)
Example exit_with_overlong_interval :
  let sc := {| queues_of := fun _ => [];
               change_answer := fun _ kwargs => confirm kwargs;
               free_of := fun _ => [];
               lock_answer := fun _ => locked_body;
               beat_of := fun _ => true;
               settings := [("INTERVAL", PyInt 10000000000)] |} in
  let s := with_all [E1; E3] (grouped_state [group_A]) in
  __exit__ (sim sc) sim_os s = (Raise OverflowError, s).
Proof. reflexivity. Qed.

(** X16.  When the settings have no [INTERVAL], [__exit__] ends with
    the [TypeError] of [time.sleep(None)] before anything else
    happens: the entries and groups of the beat are not cleared and no
    line is written to the health log. *)
Theorem exit_without_interval {W : Type} (E : Env W) (O : Os W) (s : St W) :
  ~ In "INTERVAL" (map fst (conf_svc E)) ->
  __exit__ E O s = (Raise TypeError, s).
Proof.
  intros Habsent. unfold __exit__, bind, lift.
  now rewrite (dict_get_absent (conf_svc E) "INTERVAL" Habsent).
Qed.

Lemma exit_without_interval_witness :
  let s := with_all [E1; E3] (grouped_state [group_A]) in
  __exit__ (sim script_no_interval) sim_os s = (Raise TypeError, s).
Proof.
  apply (@exit_without_interval _ (sim script_no_interval) sim_os
           (with_all [E1; E3] (grouped_state [group_A]))).
  simpl. intros [H | []]. discriminate H.
Defined.


(** ** Construction, and the names of the dispatch threads *)

(** X17.  The entries that a new instance promotes are the ones the
    registry listed as [INITIALIZING] when the instance was built:
    [__init__] asks for them once, and [put_queues_on_pending], when it
    returns, has issued one promotion for each of them, in the order of
    that list, and no other change of status. *)
Theorem init_then_promote {W : Type} (E : Env W) (s : St W)
        (listed_queues : list pydict) (w : W) :
  get_queues (rlocker E) "INITIALIZING" (world s) = (Ok listed_queues, w) ->
  let s1 := snd (init E s) in
  fst (init E s) = Ok tt
  /\ issued s s1 = [GetQueues "INITIALIZING"]
  /\ self s1 = {| initializing_queues := listed_queues; pending_queues := None |}
  /\ (fst (put_queues_on_pending E s1) = Ok tt ->
      filter is_status_change (issued s1 (snd (put_queues_on_pending E s1)))
      = map promote_call listed_queues).
Proof.
  intros Hlisted s1.
  assert (Hinit : init E s
                  = (Ok tt,
                     with_self {| initializing_queues := listed_queues;
                                  pending_queues := None |}
                       (with_world w (record (GetQueues "INITIALIZING") s)))).
  { unfold init, bind, call. simpl.
    unfold const.STATUS_INITIALIZING. now rewrite Hlisted. }
  subst s1. rewrite Hinit. simpl. repeat split.
  - now apply issued_app.
  - intros Hok.
    match goal with |- context [put_queues_on_pending E ?st] =>
      destruct (put_queues_on_pending_log E st) as (calls & n & Hlog & _ & Hall & _);
      rewrite (issued_app _ _ _ Hlog); now apply Hall end.
Qed.

Lemma init_then_promote_witness :
  let sc := {| queues_of := fun status =>
                              if String.eqb status "INITIALIZING"
                              then two_initializing else [];
               change_answer := fun _ kwargs => confirm kwargs;
               free_of := fun _ => [];
               lock_answer := fun _ => locked_body;
               beat_of := fun _ => true;
               settings := [] |} in
  let s1 := snd (init (sim sc) (boot [])) in
  fst (init (sim sc) (boot [])) = Ok tt
  /\ issued (boot []) s1 = [GetQueues "INITIALIZING"]
  /\ self s1 = {| initializing_queues := two_initializing; pending_queues := None |}
  /\ (fst (put_queues_on_pending (sim sc) s1) = Ok tt ->
      filter is_status_change (issued s1 (snd (put_queues_on_pending (sim sc) s1)))
      = map promote_call two_initializing).
Proof.
  apply (@init_then_promote _
           (sim {| queues_of := fun status =>
                                  if String.eqb status "INITIALIZING"
                                  then two_initializing else [];
                   change_answer := fun _ kwargs => confirm kwargs;
                   free_of := fun _ => [];
                   lock_answer := fun _ => locked_body;
                   beat_of := fun _ => true;
                   settings := [] |})
           (boot []) two_initializing (world (boot []))).
  reflexivity.
Defined.

Lemma string_of_Z_injective (z1 z2 : Z) :
  NilZero.string_of_int (Z.to_int z1) = NilZero.string_of_int (Z.to_int z2) ->
  z1 = z2.
Proof.
  intros H.
  assert (Hparse : forall z,
             NilZero.int_of_string (NilZero.string_of_int (Z.to_int z))
             = Some (Z.to_int z)).
  { intros z. apply NilZero.isi; destruct z; simpl; try discriminate;
      intros Heq; injection Heq as Heq;
      now apply Unsigned.to_uint_nonnil in Heq. }
  pose proof (Hparse z1) as H1. rewrite H, Hparse in H1.
  injection H1 as H1.
  rewrite <- (DecimalZ.of_to z1), <- (DecimalZ.of_to z2). now rewrite H1.
Qed.

(** X18.  With the decimal text of an integer as its [str], two
    entries with different integer ids have different thread names, so
    the thread of one entry never makes the loop skip another: after
    the attempt for the first is started from a state in which no
    thread named after the second is alive, the attempt for the second
    is started as well. *)
Theorem distinct_ids_distinct_threads (sc : Script) (q1 q2 : Rqueue)
        (r1 r2 : pydict) (z1 z2 : Z) (s : St (list Thread)) :
  id q1 = PyInt z1 ->
  id q2 = PyInt z2 ->
  z1 <> z2 ->
  ~ In (thread_name (sim sc) q2) (map t_name (world s)) ->
  thread_name (sim sc) q1 <> thread_name (sim sc) q2
  /\ let s1 := snd (fire (sim sc) q1 r1 s) in
     dispatches (issued s1 (snd (fire (sim sc) q2 r2 s1))) = [(q2, r2)].
Proof.
  intros Hid1 Hid2 Hdiff Hfresh.
  assert (Hnames : thread_name (sim sc) q1 <> thread_name (sim sc) q2).
  { unfold thread_name. simpl. rewrite Hid1, Hid2. simpl. intros Heq.
    apply Hdiff. apply string_of_Z_injective.
    now repeat (injection Heq as Heq). }
  split; [exact Hnames|]. intros s1.
  assert (Hfresh1 : existsb (String.eqb (thread_name (sim sc) q2))
                      (map t_name (world s1)) = false).
  { destruct (existsb _ (map t_name (world s1))) eqn:Halive; [|reflexivity].
    exfalso. apply existsb_exists in Halive.
    destruct Halive as (name & Hin & Heq). apply String.eqb_eq in Heq. subst name.
    subst s1. destruct (fire_world sc q1 r1 s) as [[_ Hnoop] | (_ & Hworld & _)].
    - rewrite Hnoop in Hin. now apply Hfresh.
    - rewrite Hworld, map_app in Hin. apply in_app_or in Hin.
      destruct Hin as [Hin | [Heq | []]]; [now apply Hfresh|].
      simpl in Heq. now apply Hnames. }
  destruct (fire_world sc q2 r2 s1) as [[Halive _] | (_ & _ & Hlog)];
    [congruence|].
  now rewrite (issued_app _ _ _ Hlog).
Qed.

Lemma distinct_ids_distinct_threads_witness :
  let sc := script locked_body true nobody in
  thread_name (sim sc) E1 <> thread_name (sim sc) E3
  /\ let s1 := snd (fire (sim sc) E1 pool_A (boot [])) in
     dispatches (issued s1 (snd (fire (sim sc) E3 pool_A s1))) = [(E3, pool_A)].
Proof.
  apply (@distinct_ids_distinct_threads (script locked_body true nobody)
           E1 E3 pool_A pool_A 1%Z 3%Z (boot [])); try reflexivity.
  - discriminate.
  - simpl. intros [H | []]. discriminate H.
Defined.

(** An id that is the text "1" and the integer id 1 share a thread
    name. *)
Example text_id_shares_thread_name :
  let sc := script locked_body true nobody in
  thread_name (sim sc) {| id := PyStr "1"; priority := PyNone; data := [] |}
  = thread_name (sim sc) E1.
Proof. reflexivity. Qed.


(** ** The vSphere inventory *)

Lemma insert_sorted_perm (x : string) (l : list string) :
  Permutation (x :: l) (insert_sorted x l).
Proof.
  induction l as [|y l IH]; simpl; [apply Permutation_refl|].
  destruct (String.leb x y); [apply Permutation_refl|].
  apply perm_trans with (y :: x :: l); [apply perm_swap | now apply perm_skip].
Qed.

Lemma py_sorted_perm (l : list string) : Permutation l (py_sorted l).
Proof.
  induction l as [|x l IH]; simpl; [apply perm_nil|].
  apply perm_trans with (x :: py_sorted l);
    [now apply perm_skip | apply insert_sorted_perm].
Qed.

Lemma insert_sorted_hd (x y : string) (l : list string) :
  str_le y x -> HdRel str_le y l -> HdRel str_le y (insert_sorted x l).
Proof.
  intros Hyx Hhd. destruct l as [|z l]; simpl; [now constructor|].
  destruct (String.leb x z); constructor; [exact Hyx|].
  now inversion Hhd.
Qed.

Lemma insert_sorted_sorted (x : string) (l : list string) :
  Sorted str_le l -> Sorted str_le (insert_sorted x l).
Proof.
  induction l as [|y l IH]; intros Hsorted; simpl.
  - repeat constructor.
  - inversion Hsorted as [|y' l' Hrest Hhd]; subst.
    destruct (String.leb x y) eqn:Hxy.
    + constructor; [exact Hsorted | now constructor].
    + constructor; [now apply IH|].
      apply insert_sorted_hd; [|exact Hhd].
      destruct (String.leb_total x y) as [H | H]; [congruence | exact H].
Qed.

Lemma py_sorted_sorted (l : list string) : Sorted str_le (py_sorted l).
Proof.
  induction l as [|x l IH]; simpl; [constructor | now apply insert_sorted_sorted].
Qed.

Lemma prefix_iff (p s : string) :
  String.prefix p s = true <-> exists rest, s = p ++ rest.
Proof.
  revert p. induction s as [|b s IH]; intros [|a p]; simpl.
  - split; [intros _; now exists EmptyString | reflexivity].
  - split; [discriminate | intros (rest & H); discriminate H].
  - split; [intros _; now exists (String b s) | reflexivity].
  - destruct (ascii_dec a b) as [-> | Hab].
    + rewrite IH. split; intros (rest & H); exists rest;
        [now rewrite H | now injection H].
    + split; [discriminate|]. intros (rest & H). injection H as H1 H2.
      now destruct Hab.
Qed.

Lemma find_name_In (pools : list ResourcePool) (name : string) :
  (exists rp, find (fun rp => String.eqb (rp_name rp) name) pools = Some rp)
  <-> In name (map rp_name pools).
Proof.
  induction pools as [|rp pools IH]; simpl.
  - split; [intros (rp & H); discriminate H | intros []].
  - destruct (String.eqb (rp_name rp) name) eqn:Heq.
    + apply String.eqb_eq in Heq. split; [now left | intros _; now exists rp].
    + apply String.eqb_neq in Heq. rewrite IH.
      split; [now right | intros [H | H]; [contradiction | exact H]].
Qed.

(** X19.  [get_all_pools] returns the names of the pools of the
    cluster in ascending order: a sorted rearrangement of the names, in
    which a name that several pools share is repeated. *)
Theorem get_all_pools_sorted (content : Content) (dc cluster : string)
        (cluster_obj : Cluster) :
  Vsphere.get_cluster content cluster dc = Ok (Some cluster_obj) ->
  exists names,
    Vsphere.get_all_pools content dc cluster = Ok names
    /\ Sorted (fun a b => String.leb a b = true) names
    /\ Permutation (map rp_name (resourcePool cluster_obj)) names.
Proof.
  intros Hcluster. unfold Vsphere.get_all_pools, Vsphere.cluster_pools.
  rewrite Hcluster. eexists. split; [reflexivity|]. split.
  - apply py_sorted_sorted.
  - apply py_sorted_perm.
Qed.

Lemma get_all_pools_sorted_witness :
  exists names,
    Vsphere.get_all_pools sample_content "Datacenter-CP" "Cluster-1" = Ok names
    /\ Sorted (fun a b => String.leb a b = true) names
    /\ Permutation (map rp_name (resourcePool sample_cluster)) names.
Proof.
  apply (@get_all_pools_sorted sample_content "Datacenter-CP" "Cluster-1"
           sample_cluster).
  reflexivity.
Defined.

Example sample_pools_sorted :
  Vsphere.get_all_pools sample_content "Datacenter-CP" "Cluster-1"
  = Ok ["ci-pool"; "pool-A"; "pool-B"].
Proof. reflexivity. Qed.

(** X20.  When the datacenter is missing, or the datacenter exists but
    has no cluster of that name, the pool lookups do not answer "no
    pool": [get_pool], [is_resource_pool_exist], [get_all_pools] and
    [is_resource_pool_prefix_exist] all end with [AttributeError]. *)
Theorem missing_cluster_raises (content : Content) (name dc cluster : string) :
  Vsphere.get_dc content dc = None
  \/ Vsphere.get_cluster content cluster dc = Ok None ->
  Vsphere.get_pool content name dc cluster = Raise AttributeError
  /\ Vsphere.is_resource_pool_exist content name dc cluster = Raise AttributeError
  /\ Vsphere.get_all_pools content dc cluster = Raise AttributeError
  /\ Vsphere.is_resource_pool_prefix_exist content name dc cluster
     = Raise AttributeError.
Proof.
  intros H.
  assert (Hpools : Vsphere.cluster_pools content dc cluster = Raise AttributeError).
  { unfold Vsphere.cluster_pools. destruct H as [Hdc | Hcluster].
    - unfold Vsphere.get_cluster. now rewrite Hdc.
    - now rewrite Hcluster. }
  unfold Vsphere.is_resource_pool_exist, Vsphere.get_pool, Vsphere.get_all_pools,
    Vsphere.is_resource_pool_prefix_exist.
  rewrite Hpools. repeat split.
Qed.

Lemma missing_cluster_raises_witness :
  Vsphere.get_pool sample_content "pool-A" "Datacenter-CP" "Cluster-2"
  = Raise AttributeError
  /\ Vsphere.is_resource_pool_exist sample_content "pool-A" "Datacenter-CP" "Cluster-2"
     = Raise AttributeError
  /\ Vsphere.get_all_pools sample_content "Datacenter-CP" "Cluster-2"
     = Raise AttributeError
  /\ Vsphere.is_resource_pool_prefix_exist sample_content "pool-A" "Datacenter-CP"
       "Cluster-2" = Raise AttributeError.
Proof.
  apply (missing_cluster_raises sample_content "pool-A" "Datacenter-CP" "Cluster-2").
  right. reflexivity.
Defined.

(** X21.  In a cluster that exists, [is_resource_pool_exist] answers
    true exactly for the names that [get_all_pools] lists, and the pool
    that [get_pool] returns for such a name carries that name. *)
Theorem pool_exists_iff_listed (content : Content) (pool dc cluster : string)
        (cluster_obj : Cluster) :
  Vsphere.get_cluster content cluster dc = Ok (Some cluster_obj) ->
  exists (found : bool) (names : list string),
    Vsphere.is_resource_pool_exist content pool dc cluster = Ok found
    /\ Vsphere.get_all_pools content dc cluster = Ok names
    /\ (found = true <-> In pool names)
    /\ (forall rp, Vsphere.get_pool content pool dc cluster = Ok (Some rp) ->
                   rp_name rp = pool /\ In rp (resourcePool cluster_obj)).
Proof.
  intros Hcluster.
  unfold Vsphere.is_resource_pool_exist, Vsphere.get_pool, Vsphere.get_all_pools,
    Vsphere.cluster_pools.
  rewrite Hcluster.
  pose proof (find_name_In (resourcePool cluster_obj) pool) as Hfind.
  assert (Hperm : In pool (map rp_name (resourcePool cluster_obj))
                  <-> In pool (py_sorted (map rp_name (resourcePool cluster_obj)))).
  { split; apply Permutation_in;
      [apply py_sorted_perm | apply Permutation_sym, py_sorted_perm]. }
  destruct (find _ (resourcePool cluster_obj)) as [rp|] eqn:Hrp.
  - exists true. eexists. repeat split; trivial.
    + intros _. apply Hperm, Hfind. now exists rp.
    + injection H as <-. apply find_some in Hrp. now apply String.eqb_eq.
    + injection H as <-. now apply find_some in Hrp.
  - exists false. eexists. repeat split; trivial; try discriminate.
    intros Hin. apply Hperm, Hfind in Hin. destruct Hin as (rp & H). discriminate H.
Qed.

Lemma pool_exists_iff_listed_witness :
  exists (found : bool) (names : list string),
    Vsphere.is_resource_pool_exist sample_content "pool-A" "Datacenter-CP" "Cluster-1"
    = Ok found
    /\ Vsphere.get_all_pools sample_content "Datacenter-CP" "Cluster-1" = Ok names
    /\ (found = true <-> In "pool-A" names)
    /\ (forall rp,
          Vsphere.get_pool sample_content "pool-A" "Datacenter-CP" "Cluster-1"
          = Ok (Some rp) ->
          rp_name rp = "pool-A"
          /\ In rp (resourcePool sample_cluster)).
Proof.
  apply (@pool_exists_iff_listed sample_content "pool-A" "Datacenter-CP" "Cluster-1"
           sample_cluster).
  reflexivity.
Defined.

(** X22.  In a cluster that exists, [is_resource_pool_prefix_exist]
    answers true exactly when one of the names that [get_all_pools]
    lists starts with the prefix; in particular it answers true for the
    full name of every pool. *)
Theorem prefix_exists_iff (content : Content) (pool_prefix dc cluster : string)
        (cluster_obj : Cluster) :
  Vsphere.get_cluster content cluster dc = Ok (Some cluster_obj) ->
  exists (found : bool) (names : list string),
    Vsphere.is_resource_pool_prefix_exist content pool_prefix dc cluster = Ok found
    /\ Vsphere.get_all_pools content dc cluster = Ok names
    /\ (found = true <->
        exists name rest, In name names /\ name = pool_prefix ++ rest)
    /\ (In pool_prefix names -> found = true).
Proof.
  intros Hcluster.
  unfold Vsphere.is_resource_pool_prefix_exist, Vsphere.get_all_pools,
    Vsphere.cluster_pools.
  rewrite Hcluster. eexists. eexists. split; [reflexivity|]. split; [reflexivity|].
  assert (Hiff : existsb (fun rp => String.prefix pool_prefix (rp_name rp))
                   (resourcePool cluster_obj) = true
                 <-> exists name rest,
                       In name (py_sorted (map rp_name (resourcePool cluster_obj)))
                       /\ name = pool_prefix ++ rest).
  { rewrite existsb_exists. split.
    - intros (rp & Hin & Hprefix). apply prefix_iff in Hprefix.
      destruct Hprefix as (rest & Hrest). exists (rp_name rp), rest.
      split; [|exact Hrest].
      apply (Permutation_in _ (py_sorted_perm _)). now apply in_map.
    - intros (name & rest & Hin & Hname).
      apply (Permutation_in _ (Permutation_sym (py_sorted_perm _))) in Hin.
      apply in_map_iff in Hin. destruct Hin as (rp & Hrp & Hin).
      exists rp. split; [exact Hin|]. apply prefix_iff. exists rest. congruence. }
  split; [exact Hiff|].
  intros Hin. apply Hiff. exists pool_prefix, EmptyString. split; [exact Hin|].
  clear. induction pool_prefix as [|a p IH]; simpl; [reflexivity | now rewrite <- IH].
Qed.

Lemma prefix_exists_iff_witness :
  exists (found : bool) (names : list string),
    Vsphere.is_resource_pool_prefix_exist sample_content "pool" "Datacenter-CP"
      "Cluster-1" = Ok found
    /\ Vsphere.get_all_pools sample_content "Datacenter-CP" "Cluster-1" = Ok names
    /\ (found = true <->
        exists name rest, In name names /\ name = "pool" ++ rest)
    /\ (In "pool" names -> found = true).
Proof.
  apply (@prefix_exists_iff sample_content "pool" "Datacenter-CP" "Cluster-1"
           sample_cluster).
  reflexivity.
Defined.

(** X23.  For a pool that exists in an inventory that does not change
    between the two reads, [get_all_vms_in_pool] returns the machines
    of the pool, and [get_compute_vms_in_pool] returns exactly those of
    them whose name starts with "compute". *)
Theorem compute_vms_of_pool (content : Content) (name dc cluster : string)
        (pool : ResourcePool) :
  Vsphere.get_pool content name dc cluster = Ok (Some pool) ->
  Vsphere.get_all_vms_in_pool content content name dc cluster = Ok (vm pool)
  /\ exists vms,
       Vsphere.get_compute_vms_in_pool content content name dc cluster = Ok vms
       /\ forall v, In v vms <->
                    In v (vm pool) /\ exists rest, vm_name v = "compute" ++ rest.
Proof.
  intros Hpool.
  assert (Hvms : Vsphere.get_all_vms_in_pool content content name dc cluster
                 = Ok (vm pool)).
  { unfold Vsphere.get_all_vms_in_pool, Vsphere.is_resource_pool_exist.
    now rewrite Hpool. }
  split; [exact Hvms|].
  unfold Vsphere.get_compute_vms_in_pool. rewrite Hvms.
  eexists. split; [reflexivity|].
  intros v. rewrite filter_In, prefix_iff. reflexivity.
Qed.

Lemma compute_vms_of_pool_witness :
  let pool := {| rp_name := "pool-A";
                 vm := [{| vm_name := "compute-0"; vm_moid := "vm-11" |};
                        {| vm_name := "control-0"; vm_moid := "vm-12" |}] |} in
  Vsphere.get_all_vms_in_pool sample_content sample_content "pool-A"
    "Datacenter-CP" "Cluster-1" = Ok (vm pool)
  /\ exists vms,
       Vsphere.get_compute_vms_in_pool sample_content sample_content "pool-A"
         "Datacenter-CP" "Cluster-1" = Ok vms
       /\ forall v, In v vms <->
                    In v (vm pool) /\ exists rest, vm_name v = "compute" ++ rest.
Proof.
  apply (@compute_vms_of_pool sample_content "pool-A" "Datacenter-CP" "Cluster-1"
           {| rp_name := "pool-A";
              vm := [{| vm_name := "compute-0"; vm_moid := "vm-11" |};
                     {| vm_name := "control-0"; vm_moid := "vm-12" |}] |}).
  reflexivity.
Defined.

(** X24.  For a pool that the first read of the inventory does not
    find, [get_all_vms_in_pool] raises "Resource Not Found" when the
    second read does not find it either, and ends with
    [AttributeError] when the pool has appeared in between. *)
Theorem vms_of_missing_pool (content content' : Content)
        (name dc cluster : string) (found : bool) :
  Vsphere.get_pool content name dc cluster = Ok None ->
  Vsphere.is_resource_pool_exist content' name dc cluster = Ok found ->
  Vsphere.get_all_vms_in_pool content content' name dc cluster
  = (if found then Raise AttributeError
     else Raise (Exception "Resource Not Found"))
  /\ Vsphere.get_all_vms_in_pool content content name dc cluster
     = Raise (Exception "Resource Not Found").
Proof.
  intros Hpool Hexist. unfold Vsphere.get_all_vms_in_pool.
  rewrite Hpool, Hexist. split; [now destruct found|].
  unfold Vsphere.is_resource_pool_exist. now rewrite Hpool.
Qed.

Lemma vms_of_missing_pool_witness :
  Vsphere.get_all_vms_in_pool sample_content sample_content "pool-Z"
    "Datacenter-CP" "Cluster-1"
  = (if false then Raise AttributeError
     else Raise (Exception "Resource Not Found"))
  /\ Vsphere.get_all_vms_in_pool sample_content sample_content "pool-Z"
       "Datacenter-CP" "Cluster-1"
     = Raise (Exception "Resource Not Found").
Proof.
  apply (@vms_of_missing_pool sample_content sample_content "pool-Z"
           "Datacenter-CP" "Cluster-1" false); reflexivity.
Defined.


(** ** The sync service *)

Section SyncProperties.
Context {W : Type} (rl : ResourceLockerConnection W).

Lemma check_pools_collects (pools : list string) (st : SyncSt W) :
  fst (check_pools rl pools st) = Ok tt ->
  exists added,
    collection (snd (check_pools rl pools st)) = (collection st ++ added)%list
    /\ map (fun c => dict_get c "pool_name") added = map PyStr pools
    /\ Forall (fun c => exists locked,
                          dict_get c "has_associated_lock" = PyBool locked) added
    /\ sync_log (snd (check_pools rl pools st))
       = (sync_log st ++ map signoff_query pools)%list.
Proof.
  revert st. induction pools as [|pool rest IH]; intros st Hok; simpl in *.
  - exists []. rewrite !app_nil_r. repeat split. constructor.
  - destruct (get_lockable_resources rl _ (sync_world st)) as [[res|e] w];
      [|discriminate Hok].
    destruct (IH _ Hok) as (added & Hcoll & Hnames & Hlocks & Hlog).
    simpl in *. eexists (_ :: added). repeat split.
    + rewrite Hcoll, <- app_assoc. reflexivity.
    + simpl. now rewrite Hnames.
    + constructor; [|exact Hlocks]. eexists. reflexivity.
    + rewrite Hlog, <- app_assoc. reflexivity.
Qed.
End SyncProperties.

(** X25.  When [actual_vs_locked_status] returns, [self.collection] is
    what it was followed by one new entry per pool of the cluster
    "Cluster-1" of "Datacenter-CP", in the ascending order of the pool
    names, each with a boolean [has_associated_lock]; the registry was
    asked once per pool, by [signoff], in that order.  Entries of
    earlier runs are kept. *)
Theorem sync_collects_every_pool {W : Type} (rl : ResourceLockerConnection W)
        (content : Content) (st : SyncSt W) (pools : list string) :
  Vsphere.get_all_pools content "Datacenter-CP" "Cluster-1" = Ok pools ->
  fst (actual_vs_locked_status rl content st) = Ok tt ->
  let st' := snd (actual_vs_locked_status rl content st) in
  exists added,
    collection st' = (collection st ++ added)%list
    /\ map (fun c => dict_get c "pool_name") added = map PyStr pools
    /\ Forall (fun c => exists locked,
                          dict_get c "has_associated_lock" = PyBool locked) added
    /\ sync_log st'
       = (sync_log st ++ PrintObj (PyList (map PyStr pools))
                         :: map signoff_query pools)%list.
Proof.
  intros Hpools Hok st'. subst st'.
  unfold actual_vs_locked_status in *. simpl in *. rewrite Hpools in *.
  destruct (check_pools_collects rl pools _ Hok)
    as (added & Hcoll & Hnames & Hlocks & Hlog).
  exists added. repeat split; trivial.
  rewrite Hlog. simpl. now rewrite <- app_assoc.
Qed.

Lemma sync_collects_every_pool_witness :
  let rl := sim_rlocker signoff_script in
  let st' := snd (actual_vs_locked_status rl sample_content sync_boot) in
  exists added,
    collection st' = (collection sync_boot ++ added)%list
    /\ map (fun c => dict_get c "pool_name") added
       = map PyStr ["ci-pool"; "pool-A"; "pool-B"]
    /\ Forall (fun c => exists locked,
                          dict_get c "has_associated_lock" = PyBool locked) added
    /\ sync_log st'
       = (sync_log sync_boot
            ++ PrintObj (PyList (map PyStr ["ci-pool"; "pool-A"; "pool-B"]))
               :: map signoff_query ["ci-pool"; "pool-A"; "pool-B"])%list.
Proof.
  apply (@sync_collects_every_pool _ (sim_rlocker signoff_script) sample_content
           sync_boot ["ci-pool"; "pool-A"; "pool-B"]); reflexivity.
Defined.

(** Two runs of one instance: the collection holds every pool twice. *)
Example sync_run_twice :
  let rl := sim_rlocker signoff_script in
  let st1 := snd (sync_run rl sample_content sync_boot) in
  collection (snd (sync_run rl sample_content st1))
  = [pool_status "ci-pool" false; pool_status "pool-A" true;
     pool_status "pool-B" false;
     pool_status "ci-pool" false; pool_status "pool-A" true;
     pool_status "pool-B" false].
Proof. reflexivity. Qed.

(** ** Dispatch threads in every environment with a thread table *)

Section ThreadTable.
Context {W : Type} (E : Env W) (alive : W -> list Thread).
Hypothesis Htable : has_thread_table E alive.

Lemma quiet_tidy (w : list Thread) : quiet w -> tidy E w.
Proof.
  intros H. split.
  - rewrite (quiet_in_flight H). constructor.
  - apply Forall_forall. intros t Ht. unfold named_after_entry.
    now rewrite (H t Ht).
Qed.

(** The names of the attempts in flight are names of threads alive. *)
Lemma in_flight_names (w : list Thread) (name : string) :
  Forall (named_after_entry E) w ->
  In name (map (thread_name E) (in_flight w)) ->
  In name (map t_name w).
Proof.
  induction w as [|t w IH]; intros Hnamed Hin; simpl in *; [exact Hin|].
  inversion Hnamed as [|t' w' Ht Hw]; subst.
  unfold named_after_entry in Ht.
  destruct (t_target t) as [[q r]|]; simpl in Hin.
  - destruct Hin as [<- | Hin]; [now left | right; now apply IH].
  - right. now apply IH.
Qed.

(** The check of the names and the start, on the thread table. *)
Lemma fire_table (q : Rqueue) (r : pydict) (s : St W) :
  (existsb (String.eqb (thread_name E q)) (map t_name (alive (world s))) = true
   /\ fire E q r s = (Ok tt, s))
  \/ (existsb (String.eqb (thread_name E q)) (map t_name (alive (world s))) = false
      /\ alive (world (snd (fire E q r s)))
         = (alive (world s) ++ [{| t_name := thread_name E q;
                                   t_target := Some (q, r) |}])%list
      /\ log (snd (fire E q r s))
         = (log s ++ [ThreadStart (thread_name E q) q r])%list).
Proof.
  destruct Htable as [Henum Hstart].
  destruct (existsb (String.eqb (thread_name E q)) (map t_name (alive (world s))))
    eqn:Halive.
  - left. split; [reflexivity|].
    rewrite (fire_alive E q r s (Henum (world s)) Halive).
    destruct s; reflexivity.
  - right. split; [reflexivity|].
    rewrite (fire_fresh E q r s (Henum (world s)) Halive).
    simpl. split; [apply Hstart | reflexivity].
Qed.

Lemma tidy_fire (q : Rqueue) (r : pydict) (s : St W) :
  tidy E (alive (world s)) -> tidy E (alive (world (snd (fire E q r s)))).
Proof.
  intros [Hnodup Hnamed].
  destruct (fire_table q r s) as [[_ ->] | (Hfresh & -> & _)];
    [now split|].
  split.
  - rewrite in_flight_app, map_app. simpl.
    apply NoDup_app; [exact Hnodup | repeat constructor; intros [] |].
    intros name Hin [<- | []].
    apply (in_flight_names _ Hnamed) in Hin.
    apply existsb_eqb_In in Hin. congruence.
  - apply Forall_app. split; [exact Hnamed|].
    constructor; [reflexivity | constructor].
Qed.

Lemma tidy_end (before after : list Thread) (t : Thread) :
  tidy E (before ++ t :: after) -> tidy E (before ++ after).
Proof.
  intros [Hnodup Hnamed]. split.
  - rewrite in_flight_app in *. simpl in Hnodup.
    destruct (t_target t) as [[q r]|]; [|exact Hnodup].
    rewrite map_app in *. simpl in Hnodup.
    now apply NoDup_remove_1 in Hnodup.
  - apply Forall_app in Hnamed as [Hbefore Hafter].
    apply Forall_app. split; [exact Hbefore | now inversion Hafter].
Qed.

Lemma reachable_tidy (s0 s : St W) :
  quiet (alive (world s0)) -> reachable E alive s0 s -> tidy E (alive (world s)).
Proof.
  intros Hquiet Hreach. induction Hreach as [|s s' _ IH Hstep].
  - now apply quiet_tidy.
  - destruct Hstep as [q r s | before after t s s' Hs Hs' | s s' Hsame].
    + now apply tidy_fire.
    + rewrite Hs'. apply tidy_end with (t := t). now rewrite <- Hs.
    + now rewrite Hsame.
Qed.

Lemma tidy_one_per_id (w : list Thread) :
  tidy E w -> NoDup (map id (in_flight w)).
Proof.
  intros [Hnodup _].
  apply (NoDup_map_inv (fun i => "Thread-" ++ py_str E i)).
  now rewrite map_map.
Qed.
End ThreadTable.

Lemma sim_has_thread_table (sc : Script) :
  has_thread_table (sim sc) (fun w : list Thread => w).
Proof. split; reflexivity. Qed.

(** An attempt whose lock request is answered by something that is not
    a JSON object changes no status. *)
Lemma queue_beat_check_no_object {W : Type} (E : Env W)
      (next_queue : Rqueue) (next_resource : pydict) (s : St W)
      (w1 w2 : W) (attempt_lock : Response) :
  queue_has_beat E (id next_queue) (QUEUE_BEAT_TIMEOUT E) (world s) = (Ok true, w1) ->
  lock_resource (rlocker E) next_resource
    (dict_get (data next_queue) "signoff") (dict_get (data next_queue) "link") w1
  = (Ok attempt_lock, w2) ->
  (forall d, json attempt_lock <> Ok (PyDict d)) ->
  filter is_status_change
    (issued s (snd (queue_beat_check E next_queue next_resource s))) = [].
Proof.
  intros Hbeat Hlock Hshape.
  unfold queue_beat_check, bind, call, lift, emit. simpl.
  rewrite Hbeat. simpl. rewrite Hlock. simpl.
  destruct (json attempt_lock) as [[| | | | |d]|e] eqn:Hjson; simpl;
    try (now destruct (Hshape d));
    (erewrite issued_app; [|simpl; rewrite <- !app_assoc; reflexivity]);
    reflexivity.
Qed.

(** C9 (amended).  In every state the service reaches from a start
    without dispatch threads, by starts of the beat loop, by threads
    ending and by anything that leaves the thread table alone, no two
    attempts in flight belong to the same entry id.  Of two attempts
    issued for one entry while the first is in flight, the second
    starts nothing and changes nothing.  The attempt that runs changes
    the status of its entry at most once: exactly once when the
    heartbeat test returns and, after a passing test, the lock request
    returns a JSON object; not at all when the answer to the lock
    request is not a JSON object. *)
Theorem one_attempt_per_entry {W : Type} (E : Env W) (alive : W -> list Thread)
        (s0 s : St W) (q : Rqueue) (r1 r2 : pydict) :
  has_thread_table E alive ->
  quiet (alive (world s0)) ->
  reachable E alive s0 s ->
  NoDup (map id (in_flight (alive (world s))))
  /\ (let s1 := snd (fire E q r1 s) in
      fire E q r2 s1 = (Ok tt, s1)
      /\ NoDup (map id (in_flight (alive (world s1))))
      /\ (~ In (thread_name E q) (map t_name (alive (world s))) ->
          dispatches (issued s s1) = [(q, r1)]
          /\ in_flight (alive (world s1)) = (in_flight (alive (world s)) ++ [q])%list))
  /\ (forall s' : St W,
        let changes :=
          filter is_status_change (issued s' (snd (queue_beat_check E q r1 s'))) in
        List.length changes <= 1
        /\ (forall has_beat w1,
              queue_has_beat E (id q) (QUEUE_BEAT_TIMEOUT E) (world s')
              = (Ok has_beat, w1) ->
              (has_beat = true ->
               exists attempt_lock w2 d,
                 lock_resource (rlocker E) r1 (dict_get (data q) "signoff")
                   (dict_get (data q) "link") w1 = (Ok attempt_lock, w2)
                 /\ json attempt_lock = Ok (PyDict d)) ->
              List.length changes = 1)
        /\ (forall w1 w2 attempt_lock,
              queue_has_beat E (id q) (QUEUE_BEAT_TIMEOUT E) (world s')
              = (Ok true, w1) ->
              lock_resource (rlocker E) r1 (dict_get (data q) "signoff")
                (dict_get (data q) "link") w1 = (Ok attempt_lock, w2) ->
              (forall d, json attempt_lock <> Ok (PyDict d)) ->
              changes = [])).
Proof.
  intros Htable Hquiet Hreach.
  pose proof (reachable_tidy Htable Hquiet Hreach) as Htidy.
  split; [now apply tidy_one_per_id with (E := E)|]. split.
  - intros s1. split; [|split].
    + assert (Halive : existsb (String.eqb (thread_name E q))
                         (map t_name (alive (world s1))) = true).
      { subst s1.
        destruct (fire_table Htable q r1 s) as [[Halive ->] | (_ & -> & _)].
        - exact Halive.
        - apply existsb_eqb_In. rewrite map_app. apply in_or_app.
          right. now left. }
      destruct (fire_table Htable q r2 s1) as [[_ Hnoop] | (Hfresh & _)];
        [exact Hnoop | congruence].
    + apply tidy_one_per_id with (E := E). subst s1. now apply tidy_fire.
    + intros Hfresh. subst s1.
      destruct (fire_table Htable q r1 s) as [[Halive _] | (_ & Hworld & Hlog)].
      * exfalso. apply Hfresh. apply existsb_exists in Halive.
        destruct Halive as (name & Hin & Heq).
        apply String.eqb_eq in Heq. now subst name.
      * rewrite (issued_app _ _ _ Hlog), Hworld, in_flight_app. split; reflexivity.
  - intros s' changes. subst changes. split; [|split].
    + destruct (queue_beat_check_calls E q r1 s')
        as [-> | [-> | [-> | [(shown & ->) | (shown & kwargs & ->)]]]];
        simpl; lia.
    + intros has_beat w1 Hbeat Hlock.
      exact (queue_beat_check_one_change E q r1 s' Hbeat Hlock).
    + intros w1 w2 attempt_lock Hbeat Hlock Hshape.
      exact (queue_beat_check_no_object E q r1 s' Hbeat Hlock Hshape).
Qed.

Lemma one_attempt_per_entry_witness :
  let E := sim (script locked_body true nobody) in
  let s := snd (fire E E1 pool_A (boot [])) in
  NoDup (map id (in_flight (world s)))
  /\ (let s1 := snd (fire E E3 pool_A s) in
      fire E E3 pool_A s1 = (Ok tt, s1)
      /\ NoDup (map id (in_flight (world s1)))
      /\ (~ In (thread_name E E3) (map t_name (world s)) ->
          dispatches (issued s s1) = [(E3, pool_A)]
          /\ in_flight (world s1) = (in_flight (world s) ++ [E3])%list))
  /\ (forall s' : St (list Thread),
        let changes :=
          filter is_status_change (issued s' (snd (queue_beat_check E E3 pool_A s'))) in
        List.length changes <= 1
        /\ (forall has_beat w1,
              queue_has_beat E (id E3) (QUEUE_BEAT_TIMEOUT E) (world s')
              = (Ok has_beat, w1) ->
              (has_beat = true ->
               exists attempt_lock w2 d,
                 lock_resource (rlocker E) pool_A (dict_get (data E3) "signoff")
                   (dict_get (data E3) "link") w1 = (Ok attempt_lock, w2)
                 /\ json attempt_lock = Ok (PyDict d)) ->
              List.length changes = 1)
        /\ (forall w1 w2 attempt_lock,
              queue_has_beat E (id E3) (QUEUE_BEAT_TIMEOUT E) (world s')
              = (Ok true, w1) ->
              lock_resource (rlocker E) pool_A (dict_get (data E3) "signoff")
                (dict_get (data E3) "link") w1 = (Ok attempt_lock, w2) ->
              (forall d, json attempt_lock <> Ok (PyDict d)) ->
              changes = [])).
Proof.
  apply (@one_attempt_per_entry _ (sim (script locked_body true nobody))
           (fun w : list Thread => w) (boot [])
           (snd (fire (sim (script locked_body true nobody)) E1 pool_A (boot [])))
           E3 pool_A pool_A).
  - split; reflexivity.
  - intros t [<- | []]. reflexivity.
  - apply reach_step with (s := boot []).
    + apply reach_start.
    + apply step_fire.
Defined.

(** C9 as stated fails: entry 1 is selected twice while its first
    attempt is in flight, and the registry answers the lock request
    with a body that is no JSON.  The second selection is skipped, one
    attempt is in flight, and that attempt ends without any change of
    status: not one of the two attempts reaches a terminal status. *)
Lemma skipped_attempt_and_no_transition :
  let E := sim (script html_body true nobody) in
  let s1 := snd (fire E E1 pool_A (boot [])) in
  let s2 := snd (fire E E1 pool_A s1) in
  s2 = s1
  /\ in_flight (world s2) = [E1]
  /\ fst (queue_beat_check E E1 pool_A s2) = Raise JSONDecodeError
  /\ filter is_status_change (issued s2 (snd (queue_beat_check E E1 pool_A s2))) = []
  /\ List.length
       (filter is_status_change (issued s2 (snd (queue_beat_check E E1 pool_A s2))))
     <> 1.
Proof.
  repeat split. intros H. vm_compute in H. discriminate H.
Qed.
